(** * dev-tools-installer: the detect/install driver and the version extractor

    A shallow embedding of [internal/installer/installer.go],
    [internal/config/config.go] and [cmd/installer/main.go].

    Go strings are byte sequences: they are modelled as [string] (a list of
    8-bit [ascii]).  The functions of Go's standard library that the program
    calls ([strings], [os.Expand], [regexp]) are modelled at the byte level in
    the modules below; the operating system (search path, subprocesses,
    environment) is an interface, [OS], that the driver is parameterised by.

    The driver runs in a state monad over the world of the operating system
    and a trace of the processes it asked for; a Go panic ends the
    computation.  What the program prints (status lines, the spinner of
    [Progress], the lines of [go install] it echoes) is not modelled, nor are
    the goroutines that print it: the driver waits for them before it looks
    at the exit status of a command.  [config.LoadConfig] is represented by
    its result. *)

From Stdlib Require Import String Ascii List Bool Arith Lia.
From stdpp Require Import gmap strings.
Import ListNotations.
Open Scope string_scope.

(** ** Bytes *)

Definition byte_in (c : ascii) (cs : list ascii) : bool :=
  existsb (Ascii.eqb c) cs.

Definition chr (n : nat) : ascii := ascii_of_nat n.

Definition str1 (c : ascii) : string := String c "".

Fixpoint bytes (ns : list nat) : string :=
  match ns with
  | [] => ""
  | n :: ns' => String (chr n) (bytes ns')
  end.

Fixpoint drop_bytes (n : nat) (s : string) : string :=
  match n, s with
  | S n', String _ s' => drop_bytes n' s'
  | _, _ => s
  end.

Fixpoint rev_bytes (s acc : string) : string :=
  match s with
  | "" => acc
  | String c s' => rev_bytes s' (String c acc)
  end.

Definition reverse_string (s : string) : string := rev_bytes s "".

Definition nonempty (s : string) : bool :=
  match s with "" => false | String _ _ => true end.

(** [Suffix t s]: [t] is what is left of [s] after some of its first bytes. *)
Inductive Suffix : string -> string -> Prop :=
| Suffix_refl s : Suffix s s
| Suffix_skip t c s : Suffix t s -> Suffix t (String c s).

(** ** Package [strings] of the Go standard library *)

Module strings.

(** [strings.HasPrefix(s, prefix)] *)
Fixpoint HasPrefix (s prefix : string) : bool :=
  match prefix with
  | "" => true
  | String p prefix' =>
      match s with
      | "" => false
      | String c s' => Ascii.eqb c p && HasPrefix s' prefix'
      end
  end.

(** [strings.TrimPrefix(s, prefix)] *)
Definition TrimPrefix (s prefix : string) : string :=
  if HasPrefix s prefix then drop_bytes (String.length prefix) s else s.

(** [strings.Contains(s, substr)] *)
Fixpoint Contains (s substr : string) : bool :=
  HasPrefix s substr ||
  match s with
  | "" => false
  | String _ s' => Contains s' substr
  end.

(** The UTF-8 encodings of the code points for which [unicode.IsSpace]
    holds: tab, LF, VT, FF, CR, space, U+0085, U+00A0, U+1680,
    U+2000..U+200A, U+2028, U+2029, U+202F, U+205F, U+3000. *)
Definition spaceEncodings : list string :=
  [ bytes [9]; bytes [10]; bytes [11]; bytes [12]; bytes [13]; bytes [32];
    bytes [194; 133]; bytes [194; 160]; bytes [225; 154; 128];
    bytes [226; 128; 128]; bytes [226; 128; 129]; bytes [226; 128; 130];
    bytes [226; 128; 131]; bytes [226; 128; 132]; bytes [226; 128; 133];
    bytes [226; 128; 134]; bytes [226; 128; 135]; bytes [226; 128; 136];
    bytes [226; 128; 137]; bytes [226; 128; 138]; bytes [226; 128; 168];
    bytes [226; 128; 169]; bytes [226; 128; 175]; bytes [226; 129; 159];
    bytes [227; 128; 128] ].

(** Width in bytes of the white-space rune that starts [s]; 0 when [s] does
    not start with one.  No encoding is a prefix of another. *)
Definition prefixWidth (encs : list string) (s : string) : nat :=
  match find (HasPrefix s) encs with
  | Some e => String.length e
  | None => 0
  end.

(** Drops leading runes whose encoding is in [encs].  [skip] counts the bytes
    of the current rune still to be dropped. *)
Fixpoint trimLeft (encs : list string) (s : string) (skip : nat) : string :=
  match s with
  | "" => ""
  | String _ s' =>
      match skip with
      | S k => trimLeft encs s' k
      | O =>
          match prefixWidth encs s with
          | O => s
          | S k => trimLeft encs s' k
          end
      end
  end.

(** [strings.TrimSpace(s)]: leading white space is removed decoding forwards,
    trailing white space decoding backwards (a trailing rune is white space
    exactly when the string ends with one of the encodings). *)
Definition TrimSpace (s : string) : string :=
  let l := trimLeft spaceEncodings s 0 in
  reverse_string (trimLeft (map reverse_string spaceEncodings) (reverse_string l) 0).

Definition flush (cur : string) : list string :=
  match cur with "" => [] | _ => [reverse_string cur] end.

(** [cur] is the field being read, last byte first. *)
Fixpoint fieldsFrom (s : string) (skip : nat) (cur : string) : list string :=
  match s with
  | "" => flush cur
  | String c s' =>
      match skip with
      | S k => fieldsFrom s' k cur
      | O =>
          match prefixWidth spaceEncodings s with
          | O => fieldsFrom s' 0 (String c cur)
          | S k => flush cur ++ fieldsFrom s' k ""
          end
      end
  end.

(** [strings.Fields(s)]: the maximal runs of non-white-space runes. *)
Definition Fields (s : string) : list string := fieldsFrom s 0 "".

(** Replacement of the non-overlapping occurrences of a non-empty [old],
    left to right. *)
Fixpoint replaceFrom (s old new : string) (skip : nat) : string :=
  match s with
  | "" => ""
  | String c s' =>
      match skip with
      | S k => replaceFrom s' old new k
      | O =>
          if HasPrefix s old
          then new ++ replaceFrom s' old new (String.length old - 1)
          else String c (replaceFrom s' old new 0)
      end
  end.

(** [strings.ReplaceAll(s, old, new)].  The program only calls it with the
    non-empty [old = "${version}"]; Go's insertion between runes for an empty
    [old] is not modelled (the string is returned unchanged). *)
Definition ReplaceAll (s old new : string) : string :=
  match old with
  | "" => s
  | _ => replaceFrom s old new 0
  end.

Fixpoint splitFrom (s sep : string) (skip : nat) (cur : string) : list string :=
  match s with
  | "" => [reverse_string cur]
  | String c s' =>
      match skip with
      | S k => splitFrom s' sep k cur
      | O =>
          if HasPrefix s sep
          then reverse_string cur :: splitFrom s' sep (String.length sep - 1) ""
          else splitFrom s' sep 0 (String c cur)
      end
  end.

(** [strings.Split(s, sep)] for a non-empty [sep] (the program only splits
    on a line feed); it never returns an empty slice. *)
Definition Split (s sep : string) : list string :=
  match sep with
  | "" => [s]
  | _ => splitFrom s sep 0 ""
  end.

End strings.

(** ** [os.Expand] and [os.ExpandEnv] *)

Module os.

(** [isShellSpecialVar]: one of [* # $ @ ! ? -] or a digit. *)
Definition isShellSpecialVar (c : ascii) : bool :=
  byte_in c (list_ascii_of_string "*#$@!?-0123456789").

(** [isAlphaNum]: underscore, digit or ASCII letter. *)
Definition isAlphaNum (c : ascii) : bool :=
  let n := nat_of_ascii c in
  Ascii.eqb c "_" || ((48 <=? n)%nat && (n <=? 57)%nat) ||
  ((97 <=? n)%nat && (n <=? 122)%nat) || ((65 <=? n)%nat && (n <=? 90)%nat).

(** The bytes of [s] before the first ["}"], and whether there is one. *)
Fixpoint untilBrace (s : string) : option string :=
  match s with
  | "" => None
  | String c s' =>
      if Ascii.eqb c "}" then Some ""
      else match untilBrace s' with
           | Some n => Some (String c n)
           | None => None
           end
  end.

Fixpoint alnumPrefix (s : string) : string :=
  match s with
  | "" => ""
  | String c s' => if isAlphaNum c then String c (alnumPrefix s') else ""
  end.

(** [getShellName(s)] for the non-empty text [s] after a dollar sign: the
    variable name and the number of bytes it takes. *)
Definition getShellName (s : string) : string * nat :=
  match s with
  | "" => ("", 0)
  | String c0 s1 =>
      if Ascii.eqb c0 "{" then
        match s1 with
        | String c1 (String c2 _) =>
            if isShellSpecialVar c1 && Ascii.eqb c2 "}" then (str1 c1, 3)
            else match untilBrace s1 with
                 | Some "" => ("", 2)
                 | Some n => (n, String.length n + 2)
                 | None => ("", 1)
                 end
        | _ =>
            match untilBrace s1 with
            | Some "" => ("", 2)
            | Some n => (n, String.length n + 2)
            | None => ("", 1)
            end
        end
      else if isShellSpecialVar c0 then (str1 c0, 1)
      else let n := alnumPrefix s in (n, String.length n)
  end.

Fixpoint expandFrom (mapping : string -> string) (s : string) (skip : nat)
  : string :=
  match s with
  | "" => ""
  | String c s' =>
      match skip with
      | S k => expandFrom mapping s' k
      | O =>
          if Ascii.eqb c "$" && nonempty s' then
            let '(name, w) := getShellName s' in
            (match name, w with
             | "", O => "$"
             | "", S _ => ""
             | _, _ => mapping name
             end) ++ expandFrom mapping s' w
          else String c (expandFrom mapping s' 0)
      end
  end.

(** [os.Expand(s, mapping)]: [${var}] and [$var] are replaced by
    [mapping(var)]; a dollar sign at the end of [s] stays. *)
Definition Expand (s : string) (mapping : string -> string) : string :=
  expandFrom mapping s 0.

End os.

(** ** Package [regexp]: the fragment of RE2 syntax the program uses

    A pattern is compiled to a list of instructions that a backtracking
    matcher runs with Go's leftmost-first semantics.  Supported syntax: a
    leading [(?i)], literal ASCII characters, the escapes [\d], [\s] and
    [\.], capture groups and a greedy [+] after a one-byte class.  All six
    patterns of [extractVersion] are in the fragment ([patterns_compile]).

    Matching is on bytes.  Every class below holds valid UTF-8 encodings
    only, and a byte below 0x80 or a lead byte never occurs inside another
    rune, so a byte-level match is a rune-level match. *)

Module regexp.

Inductive Inst : Type :=
| InstRune (alts : list string)   (* one rune, given by its encodings *)
| InstPlus (set : list ascii)     (* one or more bytes of [set], greedy *)
| InstCapture (slot : nat).       (* slot 2g opens group g, 2g+1 closes it *)

Record Regexp : Type := { prog : list Inst; NumSubexp : nat }.

Definition Caps : Type := list (nat * nat).

Fixpoint getCap (slot : nat) (caps : Caps) : option nat :=
  match caps with
  | [] => None
  | (k, pos) :: caps' => if (k =? slot)%nat then Some pos else getCap slot caps'
  end.

(** [\d] is [0-9]; [\s] is tab, LF, FF, CR and space. *)
Definition perlDigit : list string :=
  map str1 (list_ascii_of_string "0123456789").

Definition perlSpace : list string :=
  [ bytes [9]; bytes [10]; bytes [12]; bytes [13]; bytes [32] ].

Definition escapeClass (e : ascii) : option (list string) :=
  if Ascii.eqb e "d" then Some perlDigit
  else if Ascii.eqb e "s" then Some perlSpace
  else if Ascii.eqb e "." then Some ["."]
  else None.

(** The runes a literal stands for.  Under [(?i)] it is the orbit of simple
    case folding: both cases of the letter, and also U+017F for [s] and
    U+212A for [k]. *)
Definition literalClass (fold : bool) (c : ascii) : list string :=
  let n := nat_of_ascii c in
  if negb fold then [str1 c]
  else
    let extra :=
      if Ascii.eqb c "s" || Ascii.eqb c "S" then [bytes [197; 191]]
      else if Ascii.eqb c "k" || Ascii.eqb c "K" then [bytes [226; 132; 170]]
      else [] in
    if (97 <=? n)%nat && (n <=? 122)%nat then str1 (chr (n - 32)) :: str1 c :: extra
    else if (65 <=? n)%nat && (n <=? 90)%nat then str1 c :: str1 (chr (n + 32)) :: extra
    else [str1 c].

Fixpoint singleBytes (cls : list string) : option (list ascii) :=
  match cls with
  | [] => Some []
  | String c "" :: cls' =>
      match singleBytes cls' with
      | Some set => Some (c :: set)
      | None => None
      end
  | _ => None
  end.

Definition isMeta (c : ascii) : bool :=
  byte_in c (list_ascii_of_string "+*?|[]{}^$.").

Definition atom (cls : list string) (plus : bool) : option Inst :=
  if plus then
    match singleBytes cls with
    | Some set => Some (InstPlus set)
    | None => None
    end
  else Some (InstRune cls).

(** [n] groups have been opened so far, [open] are those not yet closed and
    [acc] the instructions emitted, last first. *)
Fixpoint parse (s : string) (fold : bool) (n : nat) (open : list nat)
    (acc : list Inst) : option Regexp :=
  match s with
  | "" =>
      match open with
      | [] => Some {| prog := rev acc; NumSubexp := n |}
      | _ => None
      end
  | String c s1 =>
      if Ascii.eqb c "\" then
        match s1 with
        | "" => None
        | String e s2 =>
            match escapeClass e with
            | None => None
            | Some cls =>
                match s2 with
                | "" => parse s2 fold n open (InstRune cls :: acc)
                | String q s3 =>
                    if Ascii.eqb q "+" then
                      match atom cls true with
                      | Some i => parse s3 fold n open (i :: acc)
                      | None => None
                      end
                    else parse s2 fold n open (InstRune cls :: acc)
                end
            end
        end
      else if Ascii.eqb c "(" then
        match s1 with
        | String "?" _ => None
        | _ => parse s1 fold (S n) (S n :: open) (InstCapture (2 * S n) :: acc)
        end
      else if Ascii.eqb c ")" then
        match open with
        | g :: open' => parse s1 fold n open' (InstCapture (2 * g + 1) :: acc)
        | [] => None
        end
      else if isMeta c || (128 <=? nat_of_ascii c)%nat then None
      else
        let cls := literalClass fold c in
        match s1 with
        | "" => parse s1 fold n open (InstRune cls :: acc)
        | String q s2 =>
            if Ascii.eqb q "+" then
              match atom cls true with
              | Some i => parse s2 fold n open (i :: acc)
              | None => None
              end
            else parse s1 fold n open (InstRune cls :: acc)
        end
  end.

(** [regexp.Compile(expr)]; [None] is a syntax error or syntax outside the
    fragment. *)
Definition Compile (expr : string) : option Regexp :=
  if strings.HasPrefix expr "(?i)"
  then parse (drop_bytes 4 expr) true 0 [] []
  else parse expr false 0 [] [].

Definition Cont : Type := string -> nat -> Caps -> option (nat * Caps).

(** Greedy [x+]: one byte of [set], then first more of them, then the rest
    of the program [k]. *)
Fixpoint plusLoop (set : list ascii) (k : Cont) (s : string) (pos : nat)
    (caps : Caps) : option (nat * Caps) :=
  match s with
  | "" => None
  | String c s' =>
      if byte_in c set then
        match plusLoop set k s' (S pos) caps with
        | Some r => Some r
        | None => k s' (S pos) caps
        end
      else None
  end.

(** Runs the program on [s], which starts at offset [pos] of the input;
    returns the end offset of the match and the capture slots. *)
Fixpoint exec (p : list Inst) : Cont :=
  match p with
  | [] => fun _ pos caps => Some (pos, caps)
  | InstRune alts :: p' =>
      fun s pos caps =>
        match find (strings.HasPrefix s) alts with
        | Some e => exec p' (drop_bytes (String.length e) s) (pos + String.length e) caps
        | None => None
        end
  | InstPlus set :: p' => plusLoop set (exec p')
  | InstCapture slot :: p' =>
      fun s pos caps => exec p' s pos ((slot, pos) :: caps)
  end.

(** The leftmost offset at which the program matches. *)
Fixpoint search (p : list Inst) (s : string) (pos : nat)
  : option (nat * nat * Caps) :=
  match exec p s pos [] with
  | Some (e, caps) => Some (pos, e, caps)
  | None =>
      match s with
      | "" => None
      | String _ s' => search p s' (S pos)
      end
  end.

Definition slice (s : string) (b e : nat) : string := substring b (e - b) s.

Definition group (s : string) (caps : Caps) (g : nat) : string :=
  match getCap (2 * g) caps, getCap (2 * g + 1) caps with
  | Some b, Some e => slice s b e
  | _, _ => ""
  end.

(** [re.FindString(s)]: the text of the leftmost match, [""] if none. *)
Definition FindString (re : Regexp) (s : string) : string :=
  match search (prog re) s 0 with
  | Some (b, e, _) => slice s b e
  | None => ""
  end.

(** [re.FindStringSubmatch(s)]: the match followed by the text of each
    group, the empty slice if there is no match. *)
Definition FindStringSubmatch (re : Regexp) (s : string) : list string :=
  match search (prog re) s 0 with
  | Some (b, e, caps) => slice s b e :: map (group s caps) (seq 1 (NumSubexp re))
  | None => []
  end.

(** [regexp.MustCompile(expr)].  Go panics on a pattern that does not
    compile; here such a pattern becomes a program that matches nothing,
    which no pattern of the program reaches ([patterns_compile]). *)
Definition MustCompile (expr : string) : Regexp :=
  match Compile expr with
  | Some re => re
  | None => {| prog := [InstRune []]; NumSubexp := 0 |}
  end.

(** *** Vocabulary for the properties of the matcher *)

(** The program matches nowhere in [s], whatever the offset and slots. *)
Definition fails (p : list Inst) (s : string) : Prop :=
  forall pos caps, exec p s pos caps = None.

Definition failsAll (p : list Inst) (s : string) : Prop :=
  forall t, Suffix t s -> fails p t.

(** Whether [k] matches does not depend on the offset or the slots. *)
Definition blind (k : Cont) : Prop :=
  forall s pos caps pos' caps', k s pos caps = None -> k s pos' caps' = None.

(** Every [+] takes at least one byte. *)
Fixpoint plusCount (p : list Inst) : nat :=
  match p with
  | [] => 0
  | InstPlus _ :: p' => S (plusCount p')
  | _ :: p' => plusCount p'
  end.

(** A match of [k] takes at least [n] bytes and ends inside the text. *)
Definition spans (n : nat) (k : Cont) : Prop :=
  forall s pos caps e caps',
    k s pos caps = Some (e, caps') -> pos + n <= e <= pos + String.length s.

End regexp.

(** ** [extractVersion] *)

(** Common version patterns *)
Definition patterns : list string :=
  [ "(?i)version\s+(v\d+\.\d+\.\d+)";
    "(?i)amass\s+-\s+v\d+\.\d+\.\d+";
    "v\d+\.\d+\.\d+";
    "\d+\.\d+\.\d+";
    "go\d+\.\d+\.\d+";
    "Version: (v\d+\.\d+\.\d+)" ].

Definition LF : string := bytes [10].

(** The body of the loop over the patterns for one pattern: [Some v] when
    the function returns [v] there, [None] when the loop goes on. *)
Definition tryPattern (pattern version : string) : option string :=
  let re := regexp.MustCompile pattern in
  if strings.Contains pattern "(" then
    (* Handle patterns with capture groups *)
    match regexp.FindStringSubmatch re version with
    | _ :: m1 :: _ => Some m1
    | _ => None
    end
  else
    (* Handle simple patterns *)
    let m := regexp.FindString re version in
    if nonempty m then
      if strings.Contains m "amass - " then
        Some (strings.TrimPrefix (strings.TrimPrefix m "amass - ") "v")
      else if strings.HasPrefix m "go" then
        Some (strings.TrimPrefix m "go")
      else Some m
    else None.

(** The loop: the index (from 0) of the pattern that returned, with the
    value returned. *)
Fixpoint tryPatterns (ps : list string) (idx : nat) (version : string)
  : option (nat * string) :=
  match ps with
  | [] => None
  | pattern :: ps' =>
      match tryPattern pattern version with
      | Some v => Some (idx, v)
      | None => tryPatterns ps' (S idx) version
      end
  end.

Definition firstLine (version : string) : string :=
  match strings.Split version LF with
  | l0 :: _ => l0
  | [] => ""
  end.

(** [extractVersion] over an arbitrary pattern list. *)
Definition extractVersionWith (ps : list string) (output : string) : string :=
  let version := strings.TrimSpace output in
  match tryPatterns ps 0 version with
  | Some (_, v) => v
  | None => firstLine version
  end.

Definition extractVersion (output : string) : string :=
  extractVersionWith patterns output.

(** Which pattern, if any, [extractVersion] returns through. *)
Definition decidingPattern (output : string) : option nat :=
  option_map fst (tryPatterns patterns 0 (strings.TrimSpace output)).

(** ** Package [config] *)

(** [InstallMethod] represents an installation method. *)
Record InstallMethod : Type := {
  Name : string;
  Commands : list string
}.

(** [ToolConfig] represents a tool's configuration. *)
Record ToolConfig : Type := {
  Dependencies : list string;
  Version : string;
  VersionFlag : string;
  Methods : list InstallMethod
}.

(** [InstallerConfig]: [Tools] is a Go map to [*ToolConfig]; a key that is
    absent (or a nil map) reads as the nil pointer, here [None]. *)
Record InstallerConfig : Type := {
  ToolList : list string;
  Tools : gmap string ToolConfig
}.

(** ** The operating system *)

(** How running one installation command ends, in the order the driver
    tests for it: [StdoutPipe] fails, [StderrPipe] fails, [Start] fails,
    [Wait] returns an error (non-zero exit), or the command exits zero. *)
Inductive CmdResult : Type :=
| StdoutPipeError
| StderrPipeError
| StartError
| WaitError
| ExitZero.

Class OS : Type := {
  World : Type;
  (** [exec.LookPath(name)] returns no error *)
  LookPath : string -> World -> bool;
  (** [exec.Command(name, flag).CombinedOutput()]: the output, [None] on error *)
  CombinedOutput : string -> string -> World -> option string * World;
  (** [exec.Command(argv[0], argv[1:]...)] with its pipes, [Start] and [Wait] *)
  RunCommand : list string -> World -> CmdResult * World;
  (** [os.Getenv] *)
  Getenv : string -> string
}.

(** What the driver asked the operating system to run. *)
Inductive Event : Type :=
| EvProbe (name flag : string)
| EvInstall (tool method : string) (argv : list string) (r : CmdResult).

Definition isInstallOf (name : string) (e : Event) : bool :=
  match e with
  | EvInstall tool _ _ _ => String.eqb tool name
  | EvProbe _ _ => false
  end.

Definition installsOf (name : string) (tr : list Event) : list Event :=
  List.filter (isInstallOf name) tr.

Definition isInstall (e : Event) : bool :=
  match e with EvInstall _ _ _ _ => true | EvProbe _ _ => false end.

(** [f] selects no probe. *)
Definition probeBlind (f : Event -> bool) : Prop := forall n flag, f (EvProbe n flag) = false.

(** [f] selects no installation command of [name]. *)
Definition blindTo (f : Event -> bool) (name : string) : Prop :=
  forall method argv r, f (EvInstall name method argv r) = false.

(** ** The driver's monad: state passing with Go panics *)

Inductive Result (A : Type) : Type :=
| Ok (a : A)
| Panic.
Arguments Ok {A} a.
Arguments Panic {A}.

Section Driver.
Context {os_ : OS}.

Record State : Type := { world : World; trace : list Event }.

Definition M (A : Type) : Type := State -> Result A * State.

Definition ret {A} (a : A) : M A := fun st => (Ok a, st).

Definition bind {A B} (m : M A) (k : A -> M B) : M B :=
  fun st =>
    match m st with
    | (Ok a, st') => k a st'
    | (Panic, st') => (Panic, st')
    end.

Definition panic {A} : M A := fun st => (Panic, st).

Notation "x <-- m ;; k" := (bind m (fun x => k))
  (at level 100, m at next level, right associativity, only parsing).

Definition lookPath (name : string) : M bool :=
  fun st => (Ok (LookPath name (world st)), st).

Definition combinedOutput (name flag : string) : M (option string) :=
  fun st =>
    let '(o, w) := CombinedOutput name flag (world st) in
    (Ok o, {| world := w; trace := trace st ++ [EvProbe name flag] |}).

Definition runCommand (tool method : string) (argv : list string) : M CmdResult :=
  fun st =>
    let '(r, w) := RunCommand argv (world st) in
    (Ok r, {| world := w; trace := trace st ++ [EvInstall tool method argv r] |}).

(** ** Tool detection *)

(** Common version flags to try *)
Definition versionFlags : list string :=
  [ "--version"; "-version"; "version"; "-v"; "-V"; "--ver"; "-ver" ].

(** The loop of [getToolVersion] over the flags; [version] is the empty
    string whenever an iteration starts. *)
Fixpoint probeFlags (name : string) (flags : list string) : M string :=
  match flags with
  | [] => ret ""
  | flag :: flags' =>
      o <-- combinedOutput name flag ;;
      match o with
      | None => probeFlags name flags'
      | Some output =>
          let version := extractVersion output in
          if nonempty version then ret version else probeFlags name flags'
      end
  end.

(** [getToolVersion] returns the version of a tool.  Reading [.Version]
    through the nil pointer panics. *)
Definition getToolVersion (cfg : InstallerConfig) (name : string) : M string :=
  match Tools cfg !! name with
  | None => panic
  | Some tc =>
      if nonempty (Version tc) then ret (Version tc)
      else
        let flags :=
          if nonempty (VersionFlag tc) then [VersionFlag tc] else versionFlags in
        probeFlags name flags
  end.

(** [checkTool] checks if a tool is installed. *)
Definition checkTool (cfg : InstallerConfig) (name : string) : M bool :=
  found <-- lookPath name ;;
  if negb found then ret false
  else
    version <-- getToolVersion cfg name ;;
    ret true.

(** ** Installation *)

Inductive InstallError : Type :=
| NoMethods (name : string)
| StdoutPipeFailed
| StderrPipeFailed
| AllMethodsFailed (name : string).

(** Replace environment variables and version *)
Definition expandCommand (tc : ToolConfig) (command : string) : string :=
  let command := os.Expand command Getenv in
  if nonempty (Version tc)
  then strings.ReplaceAll command "${version}" (Version tc)
  else command.

(** The inner loop of [installTool] over the commands of one method:
    [Some r] when the function returns [r] inside the loop, [None] when
    the loop runs to its end. *)
Fixpoint runCommands (name : string) (tc : ToolConfig) (method : string)
    (commands : list string) : M (option (option InstallError)) :=
  match commands with
  | [] => ret None
  | command :: commands' =>
      match strings.Fields (expandCommand tc command) with
      | [] => runCommands name tc method commands'
      | parts =>
          r <-- runCommand name method parts ;;
          match r with
          | StdoutPipeError => ret (Some (Some StdoutPipeFailed))
          | StderrPipeError => ret (Some (Some StderrPipeFailed))
          | StartError => runCommands name tc method commands'
          | WaitError => runCommands name tc method commands'
          | ExitZero => ret (Some None)
          end
      end
  end.

(** The outer loop of [installTool] over the methods. *)
Fixpoint runMethods (name : string) (tc : ToolConfig)
    (methods : list InstallMethod) : M (option InstallError) :=
  match methods with
  | [] => ret (Some (AllMethodsFailed name))
  | method :: methods' =>
      r <-- runCommands name tc (Name method) (Commands method) ;;
      match r with
      | Some e => ret e
      | None => runMethods name tc methods'
      end
  end.

(** [installTool]: [None] is Go's nil error. *)
Definition installTool (cfg : InstallerConfig) (name : string)
  : M (option InstallError) :=
  match Tools cfg !! name with
  | None => ret (Some (NoMethods name))
  | Some tc =>
      match Methods tc with
      | [] => ret (Some (NoMethods name))
      | methods => runMethods name tc methods
      end
  end.

(** ** [Run] and [main] *)

(** The loop of [Run] over the tool list, with the counter [installed]. *)
Fixpoint runTools (cfg : InstallerConfig) (names : list string)
    (installed : nat) : M nat :=
  match names with
  | [] => ret installed
  | name :: names' =>
      present <-- checkTool cfg name ;;
      if present then runTools cfg names' (S installed)
      else
        err <-- installTool cfg name ;;
        match err with
        | Some _ => runTools cfg names' installed
        | None => runTools cfg names' (S installed)
        end
  end.

(** [Run]: the count printed in the summary and the error returned. *)
Definition Run (cfg : InstallerConfig) : M (nat * option InstallError) :=
  installed <-- runTools cfg (ToolList cfg) 0 ;;
  ret (installed, None).

(** How the process ends: an exit code, or an unrecovered panic (the Go
    runtime prints the panic and exits with status 2). *)
Inductive ProcessExit : Type :=
| Exit (code : nat)
| Panicked.

(** [main]; [loaded] is what [config.LoadConfig] returned, [None] when the
    file could not be read or parsed. *)
Definition main (loaded : option InstallerConfig) (st : State)
  : ProcessExit * State :=
  match loaded with
  | None => (Exit 1, st)
  | Some cfg =>
      match Run cfg st with
      | (Ok (_, Some _), st') => (Exit 1, st')
      | (Ok (_, None), st') => (Exit 0, st')
      | (Panic, st') => (Panicked, st')
      end
  end.

End Driver.

Arguments State : clear implicits.
Arguments M : clear implicits.

(** ** Environments and configurations for the properties *)

(** The tool stays on the search path whatever the driver runs. *)
Definition keepsOnPath {os_ : OS} (name : string) : Prop :=
  (forall n flag w,
      LookPath name w = true ->
      LookPath name (snd (CombinedOutput n flag w)) = true) /\
  (forall argv w,
      LookPath name w = true ->
      LookPath name (snd (RunCommand argv w)) = true).

(** A scripted operating system for running the driver on examples.  The
    world is the list of the names on the search path.  [false] exits
    non-zero, [nosuchprogram] cannot be started, [install t] puts [t] on the
    search path, every other command exits zero.  A tool answers
    [--version] only.  The environment sets [HOME] and nothing else. *)
Definition scriptedRun (argv : list string) (w : list string)
  : CmdResult * list string :=
  match argv with
  | [] => (StartError, w)
  | prog :: args =>
      if String.eqb prog "false" then (WaitError, w)
      else if String.eqb prog "nosuchprogram" then (StartError, w)
      else if String.eqb prog "install" then
        match args with
        | t :: _ => (ExitZero, t :: w)
        | [] => (WaitError, w)
        end
      else (ExitZero, w)
  end.

Definition scriptedOS : OS := {|
  World := list string;
  LookPath name w := existsb (String.eqb name) w;
  CombinedOutput name flag w :=
    (if String.eqb flag "--version"
     then Some (name ++ " version v1.0.0") else None, w);
  RunCommand := scriptedRun;
  Getenv n := if String.eqb n "HOME" then "/root" else ""
|}.

Definition start (w : list string) : State scriptedOS :=
  @Build_State scriptedOS w [].

Definition tool (version : string) (methods : list InstallMethod) : ToolConfig :=
  {| Dependencies := []; Version := version; VersionFlag := "";
     Methods := methods |}.

(** One tool, [alpha], with the given methods. *)
Definition alphaConfig (methods : list InstallMethod) : InstallerConfig :=
  {| ToolList := ["alpha"]; Tools := {[ "alpha" := tool "" methods ]} |}.

(** A tool list that names [git], which has no entry in [tools]. *)
Definition gitConfig : InstallerConfig :=
  {| ToolList := ["git"]; Tools := ∅ |}.

(** Two tools that are installed by [install]. *)
Definition twoToolConfig : InstallerConfig :=
  {| ToolList := ["beta"; "alpha"];
     Tools :=
       {[ "alpha" := tool "" [ {| Name := "m"; Commands := ["install alpha"] |} ];
          "beta" := tool "" [ {| Name := "m"; Commands := ["install beta"] |} ] ]} |}.

Definition goTool : ToolConfig :=
  tool "1.23.3"
    [ {| Name := "official binary";
         Commands := [ "wget https://go.dev/dl/go${version}.linux-amd64.tar.gz";
                       "sudo rm -rf /usr/local/go" ] |} ].

Definition goConfig : InstallerConfig :=
  {| ToolList := ["go"]; Tools := {[ "go" := goTool ]} |}.

(** Two methods; the first command of the first one exits non-zero. *)
Definition retryMethods : list InstallMethod :=
  [ {| Name := "m"; Commands := ["false"; "touch marker"] |};
    {| Name := "n"; Commands := ["true"] |} ].

(** A machine with an empty search path where no process can be run. *)
Definition bareOS : OS := {|
  World := unit;
  LookPath _ _ := false;
  CombinedOutput _ _ w := (None, w);
  RunCommand _ w := (StartError, w);
  Getenv _ := ""
|}.

(** ** The installation plan

    What the two nested loops of [installTool] amount to: one pass over the
    commands of all methods. *)

Section Plan.
Context {os_ : OS}.

(** The argv of one command line of a method, with the name of the method;
    a line that is blank once expanded gives nothing. *)
Definition planOfCommand (tc : ToolConfig) (method command : string)
  : list (string * list string) :=
  match strings.Fields (expandCommand tc command) with
  | [] => []
  | parts => [(method, parts)]
  end.

(** The command lines of all methods, in declared order. *)
Definition planOf (tc : ToolConfig) (methods : list InstallMethod)
  : list (string * list string) :=
  flat_map (fun m => flat_map (planOfCommand tc (Name m)) (Commands m)) methods.

(** One loop over a plan: the first command that exits zero ends it with
    success, a pipe that cannot be created ends it with that error, a
    command that cannot be started or exits non-zero leads to the next. *)
Fixpoint runPlan (name : string) (plan : list (string * list string))
  : M os_ (option InstallError) :=
  match plan with
  | [] => ret (Some (AllMethodsFailed name))
  | (method, argv) :: plan' =>
      bind (runCommand name method argv) (fun r =>
        match r with
        | StdoutPipeError => ret (Some StdoutPipeFailed)
        | StderrPipeError => ret (Some StderrPipeFailed)
        | StartError => runPlan name plan'
        | WaitError => runPlan name plan'
        | ExitZero => ret None
        end)
  end.

(** The results after which the driver goes on to the next command. *)
Definition retried (r : CmdResult) : bool :=
  match r with
  | StartError | WaitError => true
  | _ => false
  end.

(** What [installTool] returns when the last command it ran ended in
    [final]; [None] when it ran out of commands. *)
Definition errorOf (name : string) (final : option CmdResult)
  : option InstallError :=
  match final with
  | Some ExitZero => None
  | Some StdoutPipeError => Some StdoutPipeFailed
  | Some StderrPipeError => Some StderrPipeFailed
  | _ => Some (AllMethodsFailed name)
  end.

Definition finalResult (final : option CmdResult) : list CmdResult :=
  match final with Some r => [r] | None => [] end.

(** The events of running the first commands of a plan with the given
    results. *)
Definition planEvents (name : string) (plan : list (string * list string))
    (results : list CmdResult) : list Event :=
  map (fun x => EvInstall name (fst (fst x)) (snd (fst x)) (snd x))
      (combine plan results).

End Plan.


(** The byte [c] occurs in [s]. *)
Fixpoint hasByte (c : ascii) (s : string) : bool :=
  match s with
  | "" => false
  | String c' s' => Ascii.eqb c' c || hasByte c s'
  end.

(** ** Vocabulary for the results of the version extractor *)

Fixpoint allBytes (f : ascii -> bool) (s : string) : bool :=
  match s with
  | "" => true
  | String c s' => f c && allBytes f s'
  end.

Definition isDigit (c : ascii) : bool :=
  byte_in c (list_ascii_of_string "0123456789").

(** A non-empty string of decimal digits. *)
Definition digitString (s : string) : Prop :=
  s <> "" /\ allBytes isDigit s = true.

(** Three numbers separated by dots, as in [1.23.3]. *)
Definition threeNumbers (s : string) : Prop :=
  exists a b c,
    digitString a /\ digitString b /\ digitString c /\
    s = a ++ "." ++ b ++ "." ++ c.

(** [t] is a run of consecutive bytes of [s]. *)
Definition Substring (t s : string) : Prop :=
  exists a b, s = a ++ t ++ b.

(** [Matches p t pos caps caps']: the program [p] can take exactly the
    text [t], from the offset [pos] and the slots [caps], and then has the
    slots [caps']. *)
Inductive Matches : list regexp.Inst -> string -> nat -> regexp.Caps
                    -> regexp.Caps -> Prop :=
| Matches_nil pos caps : Matches [] "" pos caps caps
| Matches_rune alts a p t pos caps caps' :
    In a alts ->
    Matches p t (pos + String.length a) caps caps' ->
    Matches (regexp.InstRune alts :: p) (a ++ t) pos caps caps'
| Matches_plus set u p t pos caps caps' :
    u <> "" ->
    allBytes (fun c => byte_in c set) u = true ->
    Matches p t (pos + String.length u) caps caps' ->
    Matches (regexp.InstPlus set :: p) (u ++ t) pos caps caps'
| Matches_capture slot p t pos caps caps' :
    Matches p t pos ((slot, pos) :: caps) caps' ->
    Matches (regexp.InstCapture slot :: p) t pos caps caps'.

(** What a continuation returns is a match of the program [p]. *)
Definition sound (p : list regexp.Inst) (k : regexp.Cont) : Prop :=
  forall s pos caps e caps',
    k s pos caps = Some (e, caps') ->
    exists t rest,
      s = t ++ rest /\ e = pos + String.length t /\ Matches p t pos caps caps'.

(** The bytes of [s] before the first byte [c]. *)
Fixpoint untilByte (c : ascii) (s : string) : string :=
  match s with
  | "" => ""
  | String x s' => if Ascii.eqb x c then "" else String x (untilByte c s')
  end.

(** * Properties *)

(** ** Bytes and suffixes *)

Lemma Suffix_trans t u s : Suffix t u -> Suffix u s -> Suffix t s.
Proof.
  intros Htu Hus. induction Hus; [assumption|].
  constructor. auto.
Qed.

Lemma Suffix_drop n s : Suffix (drop_bytes n s) s.
Proof.
  revert s. induction n as [|n IH]; intros s; simpl.
  - destruct s; constructor.
  - destruct s as [|c s]; [constructor|].
    constructor. apply IH.
Qed.

Lemma Suffix_length t s : Suffix t s -> String.length t <= String.length s.
Proof. induction 1; simpl; lia. Qed.

Lemma HasPrefix_length s e :
  strings.HasPrefix s e = true -> String.length e <= String.length s.
Proof.
  revert s. induction e as [|p e IH]; intros s H; simpl in *; [lia|].
  destruct s as [|c s]; [discriminate|].
  apply andb_true_iff in H as [_ H]. apply IH in H. simpl. lia.
Qed.

Lemma drop_bytes_length n s :
  String.length (drop_bytes n s) = String.length s - n.
Proof.
  revert s. induction n as [|n IH]; intros s; simpl.
  - destruct s; simpl; lia.
  - destruct s as [|c s]; simpl; [reflexivity|]. apply IH.
Qed.

Lemma substring_nonempty s b n :
  b < String.length s -> 0 < n -> nonempty (substring b n s) = true.
Proof.
  revert b. induction s as [|c s IH]; intros b Hb Hn; simpl in *; [lia|].
  destruct b as [|b].
  - destruct n; [lia|reflexivity].
  - apply IH; lia.
Qed.

(** ** The matcher *)

Module regexp_facts.
Import regexp.

Lemma plusLoop_blind set k : blind k -> blind (plusLoop set k).
Proof.
  intros Hk s. induction s as [|c s IH]; intros pos caps pos' caps'; simpl.
  - reflexivity.
  - destruct (byte_in c set); [|reflexivity].
    destruct (plusLoop set k s (S pos) caps) eqn:E; [discriminate|].
    intros Hn. rewrite (IH _ _ (S pos') caps' E).
    eapply Hk, Hn.
Qed.

(** Whether a program matches does not depend on the offset or the slots. *)
Lemma exec_blind p : blind (exec p).
Proof.
  induction p as [|i p IH]; simpl.
  - intros s pos caps pos' caps'. discriminate.
  - destruct i as [alts|set|slot].
    + intros s pos caps pos' caps'.
      destruct (find (strings.HasPrefix s) alts); [|reflexivity].
      apply IH.
    + apply plusLoop_blind, IH.
    + intros s pos caps pos' caps'. apply IH.
Qed.

Lemma exec_none_fails p s pos caps : exec p s pos caps = None -> fails p s.
Proof. intros H pos' caps'. eapply exec_blind, H. Qed.

Lemma plusLoop_none_mono set (k1 k2 : Cont) :
  (forall s pos caps, k1 s pos caps = None -> k2 s pos caps = None) ->
  forall s pos caps,
    plusLoop set k1 s pos caps = None -> plusLoop set k2 s pos caps = None.
Proof.
  intros Hk s. induction s as [|c s IH]; intros pos caps; simpl; [reflexivity|].
  destruct (byte_in c set); [|reflexivity].
  destruct (plusLoop set k1 s (S pos) caps) eqn:E; [discriminate|].
  intros Hn. rewrite (IH _ _ E). apply Hk, Hn.
Qed.

(** A program that fails still fails when it is extended at its end. *)
Lemma fails_app p q s : fails p s -> fails (p ++ q) s.
Proof.
  revert s. induction p as [|i p IH]; intros s H.
  - specialize (H 0 []). discriminate.
  - intros pos caps. specialize (H pos caps). simpl in *.
    destruct i as [alts|set|slot].
    + destruct (find (strings.HasPrefix s) alts); [|reflexivity].
      apply IH. eapply exec_none_fails, H.
    + revert H. apply plusLoop_none_mono.
      intros s' pos' caps' H'. apply IH. eapply exec_none_fails, H'.
    + apply IH. eapply exec_none_fails, H.
Qed.

Lemma plusLoop_failsAll set k s :
  (forall t, Suffix t s -> forall pos caps, k t pos caps = None) ->
  forall pos caps, plusLoop set k s pos caps = None.
Proof.
  induction s as [|c s IH]; intros Hk pos caps; simpl; [reflexivity|].
  destruct (byte_in c set); [|reflexivity].
  rewrite IH.
  - apply Hk. constructor. constructor.
  - intros t Ht. apply Hk. constructor. assumption.
Qed.

(** A program that fails at every suffix still does when an instruction is
    put in front of it. *)
Lemma failsAll_cons i p s : failsAll p s -> failsAll (i :: p) s.
Proof.
  intros H t Ht pos caps. simpl.
  destruct i as [alts|set|slot].
  - destruct (find (strings.HasPrefix t) alts); [|reflexivity].
    apply H. eapply Suffix_trans; [apply Suffix_drop|exact Ht].
  - apply plusLoop_failsAll. intros u Hu. apply H.
    eapply Suffix_trans; eassumption.
  - apply H, Ht.
Qed.

Lemma failsAll_app_l pre p s : failsAll p s -> failsAll (pre ++ p) s.
Proof.
  intros H. induction pre as [|i pre IH]; [exact H|].
  simpl. apply failsAll_cons, IH.
Qed.

Lemma failsAll_app_r p q s : failsAll p s -> failsAll (p ++ q) s.
Proof. intros H t Ht. apply fails_app, H, Ht. Qed.

Lemma search_none p s pos : search p s pos = None <-> failsAll p s.
Proof.
  split.
  - revert pos. induction s as [|c s IH]; intros pos H t Ht; simpl in H.
    + destruct (exec p "" pos []) as [[e caps]|] eqn:E; [discriminate|].
      inversion Ht; subst. eapply exec_none_fails, E.
    + destruct (exec p (String c s) pos []) as [[e caps]|] eqn:E; [discriminate|].
      inversion Ht; subst.
      * eapply exec_none_fails, E.
      * eapply IH; eassumption.
  - revert pos. induction s as [|c s IH]; intros pos H; simpl.
    + rewrite (H "" (Suffix_refl _)). reflexivity.
    + rewrite (H _ (Suffix_refl _)). apply IH.
      intros t Ht. apply H. constructor. assumption.
Qed.

Lemma plusLoop_spans set k n : spans n k -> spans (S n) (plusLoop set k).
Proof.
  intros Hk s. induction s as [|c s IH]; intros pos caps e caps'; simpl.
  - discriminate.
  - destruct (byte_in c set); [|discriminate].
    destruct (plusLoop set k s (S pos) caps) as [[e1 c1]|] eqn:E.
    + intros [= -> ->]. apply IH in E. lia.
    + intros H. apply Hk in H. lia.
Qed.

Lemma exec_spans p : spans (plusCount p) (exec p).
Proof.
  induction p as [|i p IH]; simpl.
  - intros s pos caps e caps' [= -> ->]. lia.
  - destruct i as [alts|set|slot].
    + intros s pos caps e caps'.
      destruct (find (strings.HasPrefix s) alts) as [a|] eqn:F; [|discriminate].
      intros H. apply IH in H. rewrite drop_bytes_length in H.
      apply find_some in F as [_ F]. apply HasPrefix_length in F. lia.
    + apply plusLoop_spans, IH.
    + intros s pos caps e caps' H. apply IH in H. exact H.
Qed.

(** A match found by [search] from offset [pos] of an input whose rest is
    [s] lies inside the input and is as long as [plusCount] says. *)
Lemma search_some p s pos b e caps :
  search p s pos = Some (b, e, caps) ->
  pos <= b /\ b + plusCount p <= e /\ e <= pos + String.length s.
Proof.
  revert pos. induction s as [|c s IH]; intros pos; simpl.
  - destruct (exec p "" pos []) as [[e1 c1]|] eqn:E; [|discriminate].
    intros [= <- <- <-]. apply exec_spans in E. simpl in E. lia.
  - destruct (exec p (String c s) pos []) as [[e1 c1]|] eqn:E.
    + intros [= <- <- <-]. apply exec_spans in E. simpl in E. lia.
    + intros H. apply IH in H. lia.
Qed.

(** For a program with a [+], [FindString] returns the empty string only
    when there is no match. *)
Lemma FindString_empty re s :
  0 < plusCount (prog re) ->
  nonempty (FindString re s) = false -> failsAll (prog re) s.
Proof.
  intros Hp H. apply (search_none _ _ 0). unfold FindString in H.
  destruct (search (prog re) s 0) as [[[b e] caps]|] eqn:E; [|reflexivity].
  apply search_some in E. unfold slice in H.
  rewrite substring_nonempty in H; [discriminate| |]; lia.
Qed.

Lemma failsAll_FindString re s :
  failsAll (prog re) s -> FindString re s = "".
Proof.
  intros H. apply (search_none _ _ 0) in H. unfold FindString. rewrite H.
  reflexivity.
Qed.

Lemma failsAll_FindStringSubmatch re s :
  failsAll (prog re) s -> FindStringSubmatch re s = [].
Proof.
  intros H. apply (search_none _ _ 0) in H. unfold FindStringSubmatch.
  rewrite H. reflexivity.
Qed.

End regexp_facts.

(** ** The version extractor *)

Section ExtractVersion.
Import regexp regexp_facts.

(** All six patterns are in the fragment of the syntax that is modelled. *)
Lemma patterns_compile :
  forallb (fun p => match Compile p with Some _ => true | None => false end)
    patterns = true.
Proof. vm_compute. reflexivity. Qed.

Lemma tryPatterns_index ps idx version i v :
  tryPatterns ps idx version = Some (i, v) -> idx <= i < idx + List.length ps.
Proof.
  revert idx. induction ps as [|p ps IH]; intros idx; simpl; [discriminate|].
  destruct (tryPattern p version).
  - intros [= <- <-]. lia.
  - intros H. apply IH in H. lia.
Qed.

(** A pattern without a group that is sent down the capture-group branch
    never returns: the slice [FindStringSubmatch] gives has one element. *)
Lemma tryPattern_paren_no_group pattern version :
  strings.Contains pattern "(" = true ->
  NumSubexp (MustCompile pattern) = 0 ->
  tryPattern pattern version = None.
Proof.
  intros Hc Hn. unfold tryPattern. rewrite Hc.
  unfold FindStringSubmatch. rewrite Hn.
  destruct (search _ version 0) as [[[b e] caps]|]; reflexivity.
Qed.

Lemma tryPattern_amass version :
  tryPattern "(?i)amass\s+-\s+v\d+\.\d+\.\d+" version = None.
Proof. apply tryPattern_paren_no_group; vm_compute; reflexivity. Qed.

(** When a simple pattern with a [+] does not return, it matches nowhere. *)
Lemma tryPattern_simple_none pattern version :
  strings.Contains pattern "(" = false ->
  0 < plusCount (prog (MustCompile pattern)) ->
  tryPattern pattern version = None ->
  failsAll (prog (MustCompile pattern)) version.
Proof.
  intros Hc Hp H. unfold tryPattern in H. rewrite Hc in H.
  apply FindString_empty; [exact Hp|].
  destruct (nonempty (FindString (MustCompile pattern) version)); [|reflexivity].
  destruct (strings.Contains _ "amass - "); [discriminate|].
  destruct (strings.HasPrefix _ "go"); discriminate.
Qed.

Lemma failsAll_tryPattern pattern version :
  failsAll (prog (MustCompile pattern)) version ->
  tryPattern pattern version = None.
Proof.
  intros H. unfold tryPattern.
  rewrite (failsAll_FindString _ _ H), (failsAll_FindStringSubmatch _ _ H).
  destruct (strings.Contains pattern "("); reflexivity.
Qed.

(** [go\d+\.\d+\.\d+] matches only where [\d+\.\d+\.\d+] matches. *)
Lemma tryPattern_go version :
  tryPattern "\d+\.\d+\.\d+" version = None ->
  tryPattern "go\d+\.\d+\.\d+" version = None.
Proof.
  intros H. apply tryPattern_simple_none in H;
    [|reflexivity|vm_compute; lia].
  apply failsAll_tryPattern.
  change (prog (MustCompile "go\d+\.\d+\.\d+"))
    with ([InstRune ["g"]; InstRune ["o"]] ++ prog (MustCompile "\d+\.\d+\.\d+"))%list.
  apply failsAll_app_l, H.
Qed.

(** [Version: (v\d+\.\d+\.\d+)] matches only where [v\d+\.\d+\.\d+] does. *)
Lemma tryPattern_Version version :
  tryPattern "v\d+\.\d+\.\d+" version = None ->
  tryPattern "Version: (v\d+\.\d+\.\d+)" version = None.
Proof.
  intros H. apply tryPattern_simple_none in H;
    [|reflexivity|vm_compute; lia].
  apply failsAll_tryPattern.
  change (prog (MustCompile "Version: (v\d+\.\d+\.\d+)"))
    with (map (fun c => InstRune [str1 c]) (list_ascii_of_string "Version: ")
          ++ [InstCapture 2]
          ++ (prog (MustCompile "v\d+\.\d+\.\d+") ++ [InstCapture 3]))%list.
  apply failsAll_app_l, failsAll_app_l, failsAll_app_r, H.
Qed.

(** The loop over the six patterns, pattern by pattern. *)
Lemma tryPatterns_unfold version :
  tryPatterns patterns 0 version =
  match tryPattern "(?i)version\s+(v\d+\.\d+\.\d+)" version with
  | Some v => Some (0, v)
  | None =>
  match tryPattern "v\d+\.\d+\.\d+" version with
  | Some v => Some (2, v)
  | None =>
  match tryPattern "\d+\.\d+\.\d+" version with
  | Some v => Some (3, v)
  | None => None
  end end end.
Proof.
  unfold patterns, tryPatterns.
  destruct (tryPattern "(?i)version\s+(v\d+\.\d+\.\d+)" version); [reflexivity|].
  rewrite tryPattern_amass.
  destruct (tryPattern "v\d+\.\d+\.\d+" version) eqn:E3; [reflexivity|].
  destruct (tryPattern "\d+\.\d+\.\d+" version) eqn:E4; [reflexivity|].
  rewrite (tryPattern_go _ E4), (tryPattern_Version _ E3). reflexivity.
Qed.

Lemma tryPatterns_first4_unfold version :
  tryPatterns (firstn 4 patterns) 0 version = tryPatterns patterns 0 version.
Proof.
  rewrite tryPatterns_unfold. unfold patterns, firstn, tryPatterns.
  destruct (tryPattern "(?i)version\s+(v\d+\.\d+\.\d+)" version); [reflexivity|].
  rewrite tryPattern_amass.
  destruct (tryPattern "v\d+\.\d+\.\d+" version); [reflexivity|].
  destruct (tryPattern "\d+\.\d+\.\d+" version); reflexivity.
Qed.

(** When no pattern returns, [extractVersion] gives the first line of the
    trimmed output. *)
Lemma extractVersion_fallback output :
  decidingPattern output = None ->
  extractVersion output = firstLine (strings.TrimSpace output).
Proof.
  unfold decidingPattern, extractVersion, extractVersionWith.
  destruct (tryPatterns patterns 0 (strings.TrimSpace output)) as [[i v]|];
    [discriminate|reflexivity].
Qed.

(** C4: on the sample outputs [extractVersion] gives the documented values
    except for ["amass - v4.5.6"], where the leading [v] stays: the result is
    ["v4.5.6"] and not ["4.5.6"]. The sample goes through the bare
    [v\d+\.\d+\.\d+] pattern (index 2), not the amass pattern. *)
Theorem extractVersion_samples :
  extractVersion "version v1.2.3" = "v1.2.3" /\
  extractVersion "amass - v4.5.6" = "v4.5.6" /\
  decidingPattern "amass - v4.5.6" = Some 2 /\
  extractVersion "go1.23.3 linux/amd64" = "1.23.3" /\
  extractVersion "Version: v2.0.0" = "v2.0.0" /\
  extractVersion "hello world" = "hello world" /\
  extractVersion "" = "".
Proof. repeat split; vm_compute; reflexivity. Qed.

(** C5: the amass pattern never decides the result of [extractVersion]: its
    text holds the parenthesis of [(?i)], so it is matched with
    [FindStringSubmatch], whose result has no second element. An output that
    matches it in upper case and with wider white space, and does not match
    the first pattern, comes back as ["v4.5.6"], the [v] not stripped. *)
Theorem amass_pattern_never_returns :
  (forall output, decidingPattern output <> Some 1) /\
  FindString (MustCompile "(?i)amass\s+-\s+v\d+\.\d+\.\d+") "AMASS -  v4.5.6"
    = "AMASS -  v4.5.6" /\
  FindString (MustCompile "(?i)version\s+(v\d+\.\d+\.\d+)") "AMASS -  v4.5.6"
    = "" /\
  extractVersion "AMASS -  v4.5.6" = "v4.5.6".
Proof.
  split; [|repeat split; vm_compute; reflexivity].
  intros output. unfold decidingPattern. rewrite tryPatterns_unfold.
  destruct (tryPattern _ _); [discriminate|].
  destruct (tryPattern _ _); [discriminate|].
  destruct (tryPattern _ _); discriminate.
Qed.

(** C10: [extractVersion] never returns through its fifth pattern
    ([go\d+\.\d+\.\d+], index 4) nor its sixth ([Version: (v\d+\.\d+\.\d+)],
    index 5), and it is equal, on every output, to the same function over
    the first four patterns alone. *)
Theorem extractVersion_patterns_5_6_dead :
  forall output,
    decidingPattern output <> Some 4 /\
    decidingPattern output <> Some 5 /\
    extractVersion output = extractVersionWith (firstn 4 patterns) output.
Proof.
  intros output. unfold decidingPattern, extractVersion, extractVersionWith.
  rewrite tryPatterns_first4_unfold, tryPatterns_unfold.
  destruct (tryPattern _ _); [repeat split; discriminate|].
  destruct (tryPattern _ _); [repeat split; discriminate|].
  destruct (tryPattern _ _); repeat split; discriminate.
Qed.

End ExtractVersion.

(** ** The driver *)

Section DriverFacts.
Context {os_ : OS}.
Implicit Types (cfg : InstallerConfig) (st : State os_) (f : Event -> bool).

Local Arguments extractVersion : simpl never.

Lemma filter_snoc f (tr : list Event) e :
  f e = false -> List.filter f (tr ++ [e]) = List.filter f tr.
Proof. intros H. rewrite List.filter_app. simpl. rewrite H. apply app_nil_r. Qed.

(** *** Detection only probes *)

Lemma probeFlags_ok name flags st :
  exists v, fst (probeFlags name flags st) = Ok v.
Proof.
  revert st. induction flags as [|flag flags IH]; intros st; simpl.
  - eexists. reflexivity.
  - unfold bind, combinedOutput.
    destruct (CombinedOutput name flag (world st)) as [[output|] w]; [|apply IH].
    destruct (nonempty (extractVersion output)); [|apply IH].
    eexists. reflexivity.
Qed.

Lemma probeFlags_trace f name flags st :
  probeBlind f ->
  List.filter f (trace (snd (probeFlags name flags st))) = List.filter f (trace st).
Proof.
  intros Hf. revert st. induction flags as [|flag flags IH]; intros st; simpl.
  - reflexivity.
  - unfold bind, combinedOutput.
    destruct (CombinedOutput name flag (world st)) as [[output|] w].
    + destruct (nonempty (extractVersion output)).
      * simpl. apply filter_snoc, Hf.
      * rewrite IH. simpl. apply filter_snoc, Hf.
    + rewrite IH. simpl. apply filter_snoc, Hf.
Qed.

Lemma probeFlags_path t name flags st :
  keepsOnPath t ->
  LookPath t (world st) = true ->
  LookPath t (world (snd (probeFlags name flags st))) = true.
Proof.
  intros [Hk _]. revert st. induction flags as [|flag flags IH]; intros st Hp; simpl.
  - exact Hp.
  - unfold bind, combinedOutput.
    specialize (Hk name flag _ Hp).
    destruct (CombinedOutput name flag (world st)) as [[output|] w]; simpl in Hk.
    + destruct (nonempty (extractVersion output)); [exact Hk|].
      apply IH. exact Hk.
    + apply IH. exact Hk.
Qed.

Lemma getToolVersion_panic cfg name st :
  fst (getToolVersion cfg name st) = Panic <-> Tools cfg !! name = None.
Proof.
  unfold getToolVersion. destruct (Tools cfg !! name) as [tc|].
  - split; [|discriminate].
    destruct (nonempty (Version tc)); [discriminate|].
    intros H. destruct (probeFlags_ok name
      (if nonempty (VersionFlag tc) then [VersionFlag tc] else versionFlags) st)
      as [v Hv].
    rewrite Hv in H. discriminate.
  - split; reflexivity.
Qed.

Lemma getToolVersion_trace f cfg name st :
  probeBlind f ->
  List.filter f (trace (snd (getToolVersion cfg name st))) = List.filter f (trace st).
Proof.
  intros Hf. unfold getToolVersion.
  destruct (Tools cfg !! name) as [tc|]; [|reflexivity].
  destruct (nonempty (Version tc)); [reflexivity|].
  apply probeFlags_trace, Hf.
Qed.

Lemma getToolVersion_path t cfg name st :
  keepsOnPath t ->
  LookPath t (world st) = true ->
  LookPath t (world (snd (getToolVersion cfg name st))) = true.
Proof.
  intros Hk Hp. unfold getToolVersion.
  destruct (Tools cfg !! name) as [tc|]; [|exact Hp].
  destruct (nonempty (Version tc)); [exact Hp|].
  apply probeFlags_path; assumption.
Qed.

(** [checkTool] answers what [LookPath] says, unless it panics. *)
Lemma checkTool_result cfg name st b :
  fst (checkTool cfg name st) = Ok b -> b = LookPath name (world st).
Proof.
  unfold checkTool, bind, lookPath, ret.
  destruct (LookPath name (world st)); simpl.
  - destruct (getToolVersion cfg name st) as [[v|] st']; simpl; congruence.
  - congruence.
Qed.

Lemma checkTool_panic cfg name st :
  fst (checkTool cfg name st) = Panic <->
  LookPath name (world st) = true /\ Tools cfg !! name = None.
Proof.
  unfold checkTool, bind, lookPath, ret.
  destruct (LookPath name (world st)); simpl.
  - pose proof (getToolVersion_panic cfg name st) as H.
    destruct (getToolVersion cfg name st) as [[v|] st']; simpl in *.
    + split; [discriminate|]. intros [_ Hn]. apply H in Hn. discriminate.
    + split; [|reflexivity]. intros _. split; [reflexivity|]. apply H.
      reflexivity.
  - split; [discriminate|]. intros [Hf _]. discriminate.
Qed.

Lemma checkTool_trace f cfg name st :
  probeBlind f ->
  List.filter f (trace (snd (checkTool cfg name st))) = List.filter f (trace st).
Proof.
  intros Hf. unfold checkTool, bind, lookPath, ret.
  destruct (LookPath name (world st)); simpl; [|reflexivity].
  pose proof (getToolVersion_trace f cfg name st Hf) as H.
  destruct (getToolVersion cfg name st) as [[v|] st']; exact H.
Qed.

Lemma checkTool_path t cfg name st :
  keepsOnPath t ->
  LookPath t (world st) = true ->
  LookPath t (world (snd (checkTool cfg name st))) = true.
Proof.
  intros Hk Hp. unfold checkTool, bind, lookPath, ret.
  destruct (LookPath name (world st)); simpl; [|exact Hp].
  pose proof (getToolVersion_path t cfg name st Hk Hp) as H.
  destruct (getToolVersion cfg name st) as [[v|] st']; exact H.
Qed.

(** *** Installation only logs commands of the tool it installs *)

Lemma runCommands_trace f name tc method commands st :
  blindTo f name ->
  List.filter f (trace (snd (runCommands name tc method commands st)))
  = List.filter f (trace st).
Proof.
  intros Hf. revert st. induction commands as [|command commands IH]; intros st.
  - reflexivity.
  - simpl. destruct (strings.Fields (expandCommand tc command)) as [|p ps];
      [apply IH|].
    unfold bind, runCommand.
    destruct (RunCommand (p :: ps) (world st)) as [r w].
    destruct r; simpl; try rewrite IH; simpl; apply filter_snoc, Hf.
Qed.

Lemma runCommands_path t name tc method commands st :
  keepsOnPath t ->
  LookPath t (world st) = true ->
  LookPath t (world (snd (runCommands name tc method commands st))) = true.
Proof.
  intros [_ Hk]. revert st.
  induction commands as [|command commands IH]; intros st Hp.
  - exact Hp.
  - simpl. destruct (strings.Fields (expandCommand tc command)) as [|p ps];
      [apply IH, Hp|].
    unfold bind, runCommand. specialize (Hk (p :: ps) _ Hp).
    destruct (RunCommand (p :: ps) (world st)) as [r w]. simpl in Hk.
    destruct r; simpl; try apply IH; exact Hk.
Qed.

Lemma runMethods_trace f name tc methods st :
  blindTo f name ->
  List.filter f (trace (snd (runMethods name tc methods st)))
  = List.filter f (trace st).
Proof.
  intros Hf. revert st. induction methods as [|m methods IH]; intros st.
  - reflexivity.
  - simpl. unfold bind.
    pose proof (runCommands_trace f name tc (Name m) (Commands m) st Hf) as H.
    destruct (runCommands name tc (Name m) (Commands m) st) as [[[e|]|] st'];
      simpl in *; try exact H.
    rewrite IH. exact H.
Qed.

Lemma runMethods_path t name tc methods st :
  keepsOnPath t ->
  LookPath t (world st) = true ->
  LookPath t (world (snd (runMethods name tc methods st))) = true.
Proof.
  intros Hk. revert st. induction methods as [|m methods IH]; intros st Hp.
  - exact Hp.
  - simpl. unfold bind.
    pose proof (runCommands_path t name tc (Name m) (Commands m) st Hk Hp) as H.
    destruct (runCommands name tc (Name m) (Commands m) st) as [[[e|]|] st'];
      simpl in *; try exact H.
    apply IH, H.
Qed.

Lemma installTool_trace f cfg name st :
  blindTo f name ->
  List.filter f (trace (snd (installTool cfg name st))) = List.filter f (trace st).
Proof.
  intros Hf. unfold installTool.
  destruct (Tools cfg !! name) as [tc|]; [|reflexivity].
  destruct (Methods tc) as [|m ms]; [reflexivity|].
  apply runMethods_trace, Hf.
Qed.

Lemma installTool_path t cfg name st :
  keepsOnPath t ->
  LookPath t (world st) = true ->
  LookPath t (world (snd (installTool cfg name st))) = true.
Proof.
  intros Hk Hp. unfold installTool.
  destruct (Tools cfg !! name) as [tc|]; [|exact Hp].
  destruct (Methods tc) as [|m ms]; [exact Hp|].
  apply runMethods_path; assumption.
Qed.

Lemma installsOf_probeBlind t : probeBlind (isInstallOf t).
Proof. intros n flag. reflexivity. Qed.

Lemma installsOf_blindTo t name : name <> t -> blindTo (isInstallOf t) name.
Proof.
  intros Hne method argv r. simpl. apply String.eqb_neq. exact Hne.
Qed.

(** The whole loop: a tool that is and stays on the search path gets no
    installation command, and is still on the path afterwards. *)
Lemma runTools_present t cfg names installed st :
  keepsOnPath t ->
  LookPath t (world st) = true ->
  installsOf t (trace (snd (runTools cfg names installed st))) = installsOf t (trace st)
  /\ LookPath t (world (snd (runTools cfg names installed st))) = true.
Proof.
  intros Hk. revert installed st.
  induction names as [|name names IH]; intros installed st Hp.
  - split; [reflexivity|exact Hp].
  - simpl. unfold bind.
    pose proof (checkTool_trace (isInstallOf t) cfg name st (installsOf_probeBlind t)) as Ht.
    pose proof (checkTool_path t cfg name st Hk Hp) as Hp1.
    pose proof (checkTool_result cfg name st) as Hr.
    destruct (checkTool cfg name st) as [[present|] st1]; simpl in *;
      [|split; [exact Ht|exact Hp1]].
    specialize (Hr present eq_refl).
    destruct present.
    + destruct (IH (S installed) st1 Hp1) as [IH1 IH2].
      split; [unfold installsOf in *; congruence|exact IH2].
    + assert (name <> t) as Hne by (intros ->; congruence).
      pose proof (installTool_trace (isInstallOf t) cfg name st1
                    (installsOf_blindTo t name Hne)) as Ht2.
      pose proof (installTool_path t cfg name st1 Hk Hp1) as Hp2.
      destruct (installTool cfg name st1) as [[err|] st2]; simpl in *;
        [|split; [unfold installsOf in *; congruence|exact Hp2]].
      destruct err as [e|].
      * destruct (IH installed st2 Hp2) as [IH1 IH2].
        split; [unfold installsOf in *; congruence|exact IH2].
      * destruct (IH (S installed) st2 Hp2) as [IH1 IH2].
        split; [unfold installsOf in *; congruence|exact IH2].
Qed.

Lemma Run_state cfg st :
  snd (Run cfg st) = snd (runTools cfg (ToolList cfg) 0 st).
Proof.
  unfold Run, bind, ret.
  destruct (runTools cfg (ToolList cfg) 0 st) as [[n|] st']; reflexivity.
Qed.

(** [Run] never returns an error. *)
Lemma Run_no_error cfg st r e : fst (Run cfg st) = Ok (r, e) -> e = None.
Proof.
  unfold Run, bind, ret.
  destruct (runTools cfg (ToolList cfg) 0 st) as [[n|] st']; simpl; congruence.
Qed.

End DriverFacts.

Section DriverClaims.
Context {os_ : OS}.
Implicit Types (cfg : InstallerConfig) (st : State os_).

Lemma nonempty_true s : s <> "" -> nonempty s = true.
Proof. destruct s; [congruence|reflexivity]. Qed.

(** The inner loop returns success at the first command that exits zero,
    whatever commands follow it in the method. *)
Lemma runCommands_first_zero_exit name tc method command commands st p ps w :
  strings.Fields (expandCommand tc command) = p :: ps ->
  RunCommand (p :: ps) (world st) = (ExitZero, w) ->
  runCommands name tc method (command :: commands) st
  = (Ok (Some None),
     {| world := w;
        trace := trace st ++ [EvInstall name method (p :: ps) ExitZero] |}).
Proof.
  intros Hf Hr. simpl. rewrite Hf. unfold bind, runCommand. rewrite Hr.
  reflexivity.
Qed.

(** After a command that exits non-zero the inner loop goes on with the
    next command of the same method. *)
Lemma runCommands_after_failure name tc method command commands st p ps w :
  strings.Fields (expandCommand tc command) = p :: ps ->
  RunCommand (p :: ps) (world st) = (WaitError, w) ->
  runCommands name tc method (command :: commands) st
  = runCommands name tc method commands
      {| world := w;
         trace := trace st ++ [EvInstall name method (p :: ps) WaitError] |}.
Proof.
  intros Hf Hr. simpl. rewrite Hf. unfold bind, runCommand. rewrite Hr.
  reflexivity.
Qed.

(** C3: with the variable [version] unset in the environment, [os.Expand]
    has already replaced [${version}] by the empty string when
    [strings.ReplaceAll] looks for it: for the declared version ["1.23.3"]
    the template ["tar -xzf go${version}.tar.gz"] is run as
    [tar -xzf go.tar.gz], not with the token [go1.23.3.tar.gz]. *)
Theorem version_placeholder_expanded_away (tc : ToolConfig) :
  Getenv "version" = "" ->
  Version tc = "1.23.3" ->
  strings.Fields (expandCommand tc "tar -xzf go${version}.tar.gz")
  = ["tar"; "-xzf"; "go.tar.gz"].
Proof.
  intros He Hv. unfold expandCommand. rewrite Hv.
  change (os.Expand "tar -xzf go${version}.tar.gz" Getenv)
    with ("tar -xzf go" ++ (Getenv "version" ++ ".tar.gz")).
  rewrite He. vm_compute. reflexivity.
Qed.

(** C6: reading the version of a tool panics exactly when the tool has no
    entry in [tools], and detection panics exactly when such a tool is on
    the search path. *)
Theorem checkTool_panics_without_entry cfg name st :
  (fst (getToolVersion cfg name st) = Panic <-> Tools cfg !! name = None) /\
  (fst (checkTool cfg name st) = Panic <->
   LookPath name (world st) = true /\ Tools cfg !! name = None).
Proof. split; [apply getToolVersion_panic|apply checkTool_panic]. Qed.

(** C7: for a tool whose entry declares a non-empty version,
    [getToolVersion] returns that version and leaves the state as it was
    (no process is run, the trace does not grow), and so does detection. *)
Theorem fixed_version_returned_without_probe cfg name tc st :
  Tools cfg !! name = Some tc ->
  Version tc <> "" ->
  getToolVersion cfg name st = (Ok (Version tc), st) /\
  checkTool cfg name st = (Ok (LookPath name (world st)), st).
Proof.
  intros Ht Hv. apply nonempty_true in Hv.
  assert (getToolVersion cfg name st = (Ok (Version tc), st)) as Hg.
  { unfold getToolVersion. rewrite Ht, Hv. reflexivity. }
  split; [exact Hg|].
  unfold checkTool, bind, lookPath, ret.
  destruct (LookPath name (world st)); simpl; [|reflexivity].
  rewrite Hg. reflexivity.
Qed.

(** *** The exit code *)

Lemma runCommands_ok name tc method commands st :
  exists r, fst (runCommands name tc method commands st) = Ok r.
Proof.
  revert st. induction commands as [|command commands IH]; intros st; simpl.
  - eexists. reflexivity.
  - destruct (strings.Fields (expandCommand tc command)) as [|p ps]; [apply IH|].
    unfold bind, runCommand.
    destruct (RunCommand (p :: ps) (world st)) as [r w].
    destruct r; simpl; try apply IH; eexists; reflexivity.
Qed.

Lemma runMethods_ok name tc methods st :
  exists r, fst (runMethods name tc methods st) = Ok r.
Proof.
  revert st. induction methods as [|m methods IH]; intros st; simpl.
  - eexists. reflexivity.
  - unfold bind.
    destruct (runCommands_ok name tc (Name m) (Commands m) st) as [r Hr].
    destruct (runCommands name tc (Name m) (Commands m) st) as [[r'|] st'];
      simpl in Hr; [|discriminate].
    destruct r' as [e|]; [eexists; reflexivity|apply IH].
Qed.

(** [installTool] guards against the missing entry and never panics. *)
Lemma installTool_ok cfg name st :
  exists r, fst (installTool cfg name st) = Ok r.
Proof.
  unfold installTool.
  destruct (Tools cfg !! name) as [tc|]; [|eexists; reflexivity].
  destruct (Methods tc) as [|m ms]; [eexists; reflexivity|].
  apply runMethods_ok.
Qed.

Lemma runTools_ok cfg names installed st :
  (forall n, In n names -> Tools cfg !! n <> None) ->
  exists r, fst (runTools cfg names installed st) = Ok r.
Proof.
  revert installed st. induction names as [|name names IH];
    intros installed st Hall; simpl.
  - eexists. reflexivity.
  - unfold bind.
    pose proof (checkTool_panic cfg name st) as Hc.
    destruct (checkTool cfg name st) as [[present|] st1]; simpl in Hc.
    + assert (forall n, In n names -> Tools cfg !! n <> None) as Hall'
        by (intros n Hn; apply Hall; right; exact Hn).
      destruct present; [apply IH, Hall'|].
      destruct (installTool_ok cfg name st1) as [r Hr].
      destruct (installTool cfg name st1) as [[err|] st2]; simpl in Hr;
        [|discriminate].
      destruct err; apply IH, Hall'.
    + destruct (proj1 Hc eq_refl) as [_ Hn].
      exfalso. apply (Hall name); [left; reflexivity|exact Hn].
Qed.

(** With an entry for every listed tool the process exits with code 0
    once the configuration is loaded. *)
Lemma main_exit_0 cfg st :
  (forall n, In n (ToolList cfg) -> Tools cfg !! n <> None) ->
  fst (main (Some cfg) st) = Exit 0.
Proof.
  intros Hall. unfold main, Run, bind, ret.
  destruct (runTools_ok cfg (ToolList cfg) 0 st Hall) as [r Hr].
  destruct (runTools cfg (ToolList cfg) 0 st) as [[n|] st']; simpl in Hr;
    [reflexivity|discriminate].
Qed.

Lemma main_exit_0_or_panic cfg st :
  fst (main (Some cfg) st) = Exit 0 \/ fst (main (Some cfg) st) = Panicked.
Proof.
  unfold main, Run, bind, ret.
  destruct (runTools cfg (ToolList cfg) 0 st) as [[n|] st']; simpl; auto.
Qed.

(** C9: a tool that is on the search path when it is checked gets no
    installation command in that iteration; and if it stays on the search
    path whatever the driver runs, then a whole run adds no installation
    command for it to the trace, nor does a second run after the first. *)
Theorem present_tool_never_installed cfg name st :
  keepsOnPath name ->
  LookPath name (world st) = true ->
  List.filter isInstall (trace (snd (checkTool cfg name st)))
    = List.filter isInstall (trace st) /\
  fst (checkTool cfg name st) <> Ok false /\
  installsOf name (trace (snd (Run cfg st))) = installsOf name (trace st) /\
  installsOf name (trace (snd (Run cfg (snd (Run cfg st)))))
    = installsOf name (trace (snd (Run cfg st))).
Proof.
  intros Hk Hp. rewrite !Run_state.
  destruct (runTools_present name cfg (ToolList cfg) 0 st Hk Hp) as [H1 Hp1].
  destruct (runTools_present name cfg (ToolList cfg) 0 _ Hk Hp1) as [H2 _].
  repeat split.
  - apply checkTool_trace. intros n flag. reflexivity.
  - intros Hb. apply checkTool_result in Hb. congruence.
  - exact H1.
  - exact H2.
Qed.

End DriverClaims.

(** ** The driver on the scripted operating system *)

Lemma scriptedOS_keepsOnPath t : keepsOnPath (os_ := scriptedOS) t.
Proof.
  split.
  - intros n flag w H. exact H.
  - intros argv w H. simpl. unfold scriptedRun.
    destruct argv as [|prog args]; [exact H|].
    destruct (String.eqb prog "false"); [exact H|].
    destruct (String.eqb prog "nosuchprogram"); [exact H|].
    destruct (String.eqb prog "install"); [|exact H].
    destruct args as [|a args]; [exact H|].
    simpl in *. rewrite H. apply orb_true_r.
Qed.

(** C1: a method whose first command exits zero makes [installTool] return
    success at once: the second command of the method, which would exit
    non-zero, is never run. *)
Theorem installTool_succeeds_after_first_command :
  installTool
    (alphaConfig [ {| Name := "m"; Commands := ["true"; "false"] |} ])
    "alpha" (start [])
  = (Ok None,
     @Build_State scriptedOS [] [EvInstall "alpha" "m" ["true"] ExitZero]) /\
  @RunCommand scriptedOS ["false"] [] = (WaitError, []).
Proof. split; vm_compute; reflexivity. Qed.

(** C2: after a command that exits non-zero, and after one that cannot be
    started, the next command of the same method is run; when it exits zero
    the tool counts as installed and the next method is not tried. *)
Theorem installTool_runs_command_after_failure :
  installTool
    (alphaConfig [ {| Name := "m"; Commands := ["false"; "touch marker"] |};
                   {| Name := "n"; Commands := ["true"] |} ])
    "alpha" (start [])
  = (Ok None,
     @Build_State scriptedOS []
       [ EvInstall "alpha" "m" ["false"] WaitError;
         EvInstall "alpha" "m" ["touch"; "marker"] ExitZero ]) /\
  installTool
    (alphaConfig [ {| Name := "m"; Commands := ["nosuchprogram"; "touch marker"] |};
                   {| Name := "n"; Commands := ["true"] |} ])
    "alpha" (start [])
  = (Ok None,
     @Build_State scriptedOS []
       [ EvInstall "alpha" "m" ["nosuchprogram"] StartError;
         EvInstall "alpha" "m" ["touch"; "marker"] ExitZero ]).
Proof. split; vm_compute; reflexivity. Qed.

Lemma version_placeholder_expanded_away_witness :
  @Getenv scriptedOS "version" = "" /\
  Version (tool "1.23.3" []) = "1.23.3" /\
  strings.Fields
    (expandCommand (os_ := scriptedOS) (tool "1.23.3" [])
       "tar -xzf go${version}.tar.gz")
  = ["tar"; "-xzf"; "go.tar.gz"].
Proof.
  split; [reflexivity|]. split; [reflexivity|].
  apply (version_placeholder_expanded_away (os_ := scriptedOS) (tool "1.23.3" []));
    reflexivity.
Defined.

Lemma fixed_version_returned_without_probe_witness :
  Tools goConfig !! "go" = Some goTool /\
  Version goTool <> "" /\
  getToolVersion goConfig "go" (start ["go"]) = (Ok "1.23.3", start ["go"]) /\
  checkTool goConfig "go" (start ["go"]) = (Ok true, start ["go"]).
Proof.
  assert (Tools goConfig !! "go" = Some goTool) as Ht by (vm_compute; reflexivity).
  assert (Version goTool <> "") as Hv by discriminate.
  split; [exact Ht|]. split; [exact Hv|].
  exact (fixed_version_returned_without_probe (os_ := scriptedOS) goConfig "go"
           goTool (start ["go"]) Ht Hv).
Defined.

(** C8: the process exits with code 1 when the configuration is not
    loaded and never otherwise; once it is loaded the process exits with
    code 0 or dies of a panic, and it does die of one when a listed tool
    without an entry in [tools] is on the search path. *)
Theorem main_exit_codes :
  (forall (os_ : OS) (st : State os_), main None st = (Exit 1, st)) /\
  (forall (os_ : OS) cfg (st : State os_),
      fst (main (Some cfg) st) = Exit 0 \/ fst (main (Some cfg) st) = Panicked) /\
  main (Some gitConfig) (start ["git"]) = (Panicked, start ["git"]).
Proof.
  split; [reflexivity|]. split; [|vm_compute; reflexivity].
  intros os_ cfg st. apply main_exit_0_or_panic.
Qed.

Lemma present_tool_never_installed_witness :
  LookPath "alpha" (world (start ["alpha"])) = true /\
  installsOf "beta" (trace (snd (Run twoToolConfig (start ["alpha"]))))
    = [EvInstall "beta" "m" ["install"; "beta"] ExitZero] /\
  installsOf "alpha" (trace (snd (Run twoToolConfig (start ["alpha"]))))
    = installsOf "alpha" (trace (start ["alpha"])) /\
  installsOf "alpha"
    (trace (snd (Run twoToolConfig (snd (Run twoToolConfig (start ["alpha"]))))))
    = installsOf "alpha" (trace (snd (Run twoToolConfig (start ["alpha"])))).
Proof.
  split; [reflexivity|]. split; [vm_compute; reflexivity|].
  apply (present_tool_never_installed (os_ := scriptedOS) twoToolConfig "alpha"
           (start ["alpha"]) (scriptedOS_keepsOnPath "alpha") eq_refl).
Defined.

(** * Further properties of the driver *)

Section PlanFacts.
Context {os_ : OS}.
Implicit Types (cfg : InstallerConfig) (st : State os_) (tc : ToolConfig).

Lemma runPlan_app name plan1 plan2 (K : M os_ (option InstallError)) st :
  (forall st', K st' = runPlan name plan2 st') ->
  forall tc method commands,
    plan1 = flat_map (planOfCommand tc method) commands ->
    bind (runCommands name tc method commands)
         (fun r => match r with Some e => ret e | None => K end) st
    = runPlan name (plan1 ++ plan2) st.
Proof.
  intros HK tc method commands ->. revert st.
  induction commands as [|command commands IH]; intros st.
  - simpl. unfold bind, ret. apply HK.
  - simpl. unfold planOfCommand at 1.
    destruct (strings.Fields (expandCommand tc command)) as [|p ps] eqn:E.
    + apply IH.
    + simpl. unfold bind at 1 2 3. unfold runCommand.
      destruct (RunCommand (p :: ps) (world st)) as [r w].
      destruct r; try reflexivity; apply IH.
Qed.

(** The nested loops over methods and commands are one loop over the plan:
    where one method ends and the next begins makes no difference. *)
Lemma runMethods_runPlan name tc methods st :
  runMethods name tc methods st = runPlan name (planOf tc methods) st.
Proof.
  revert st. induction methods as [|m methods IH]; intros st.
  - reflexivity.
  - simpl. eapply runPlan_app; [exact IH|reflexivity].
Qed.

Lemma installTool_flat cfg name tc st :
  Tools cfg !! name = Some tc ->
  Methods tc <> [] ->
  installTool cfg name st = runPlan name (planOf tc (Methods tc)) st.
Proof.
  intros Ht Hm. unfold installTool. rewrite Ht.
  destruct (Methods tc) as [|m ms] eqn:E; [congruence|].
  apply runMethods_runPlan.
Qed.

(** X1: for a tool with an entry and at least one method, [installTool]
    is one loop over the command lines of all its methods taken together:
    it stops with success at the first command that exits zero, wherever
    in a method that command stands. *)
Theorem installTool_is_runPlan cfg name tc st :
  Tools cfg !! name = Some tc ->
  Methods tc <> [] ->
  installTool cfg name st = runPlan name (planOf tc (Methods tc)) st.
Proof. apply installTool_flat. Qed.

Lemma runPlan_outcome name plan st :
  exists failures final,
    forallb retried failures = true /\
    match final with
    | Some r => retried r = false /\ List.length failures < List.length plan
    | None => List.length failures = List.length plan
    end /\
    trace (snd (runPlan name plan st))
      = (trace st ++ planEvents name plan (failures ++ finalResult final))%list /\
    fst (runPlan name plan st) = Ok (errorOf name final).
Proof.
  revert st. induction plan as [|[method argv] plan IH]; intros st.
  - exists [], None. simpl. rewrite app_nil_r. auto.
  - simpl. unfold bind, runCommand.
    destruct (RunCommand argv (world st)) as [r w] eqn:E.
    assert (forall st1 : State os_,
      trace st1 = (trace st ++ [EvInstall name method argv r])%list ->
      retried r = true ->
      exists failures final,
        forallb retried failures = true /\
        match final with
        | Some r0 => retried r0 = false /\ List.length failures < S (List.length plan)
        | None => List.length failures = S (List.length plan)
        end /\
        trace (snd (runPlan name plan st1))
          = (trace st ++ planEvents name ((method, argv) :: plan)
                           (failures ++ finalResult final))%list /\
        fst (runPlan name plan st1) = Ok (errorOf name final)) as Hgo.
    { intros st1 Htr Hr.
      destruct (IH st1) as (failures & final & Hf & Hl & Ht & Ho).
      exists (r :: failures), final. simpl. rewrite Hr, Hf.
      split; [reflexivity|]. split.
      - destruct final as [r0|]; [destruct Hl; split; [assumption|lia]|lia].
      - split; [|exact Ho]. rewrite Ht, Htr, <- app_assoc. reflexivity. }
    destruct r; simpl.
    + exists [], (Some StdoutPipeError). simpl.
      split; [reflexivity|]. split; [split; [reflexivity|lia]|].
      unfold planEvents. simpl. rewrite combine_nil. split; reflexivity.
    + exists [], (Some StderrPipeError). simpl.
      split; [reflexivity|]. split; [split; [reflexivity|lia]|].
      unfold planEvents. simpl. rewrite combine_nil. split; reflexivity.
    + apply Hgo; reflexivity.
    + apply Hgo; reflexivity.
    + exists [], (Some ExitZero). simpl.
      split; [reflexivity|]. split; [split; [reflexivity|lia]|].
      unfold planEvents. simpl. rewrite combine_nil. split; reflexivity.
Qed.

Lemma installTool_plan_outcome cfg name tc st :
  Tools cfg !! name = Some tc ->
  Methods tc <> [] ->
  exists failures final,
    forallb retried failures = true /\
    match final with
    | Some r => retried r = false /\
                List.length failures < List.length (planOf tc (Methods tc))
    | None => List.length failures = List.length (planOf tc (Methods tc))
    end /\
    trace (snd (installTool cfg name st))
      = (trace st ++ planEvents name (planOf tc (Methods tc))
                       (failures ++ finalResult final))%list /\
    fst (installTool cfg name st) = Ok (errorOf name final).
Proof.
  intros Ht Hm. rewrite (installTool_flat cfg name tc st Ht Hm).
  apply runPlan_outcome.
Qed.

(** X2: what [installTool] runs and returns, for a tool with an entry and
    at least one method.  It runs the command lines of the plan in declared
    order, each at most once; every command but the last one run could not
    be started or exited non-zero; it returns success exactly when the last
    command run exited zero, and "all methods failed" exactly when every
    command line of every method was run and none exited zero. *)
Theorem installTool_outcome cfg name tc st :
  Tools cfg !! name = Some tc ->
  Methods tc <> [] ->
  exists failures final,
    forallb retried failures = true /\
    match final with
    | Some r => retried r = false /\
                List.length failures < List.length (planOf tc (Methods tc))
    | None => List.length failures = List.length (planOf tc (Methods tc))
    end /\
    trace (snd (installTool cfg name st))
      = (trace st ++ planEvents name (planOf tc (Methods tc))
                       (failures ++ finalResult final))%list /\
    fst (installTool cfg name st) = Ok (errorOf name final).
Proof. apply installTool_plan_outcome. Qed.

End PlanFacts.

Section DetectionFacts.
Context {os_ : OS}.
Implicit Types (cfg : InstallerConfig) (st : State os_) (tc : ToolConfig).

Local Arguments extractVersion : simpl never.

Lemma nonempty_false s : nonempty s = false -> s = "".
Proof. destruct s; [reflexivity|discriminate]. Qed.



(** X4: [installTool] never panics; it answers "no installation methods"
    exactly when the tool has no entry or its entry has no method, and then
    it has run nothing. *)
Theorem installTool_no_methods cfg name st :
  (exists r, fst (installTool cfg name st) = Ok r) /\
  (fst (installTool cfg name st) = Ok (Some (NoMethods name)) <->
   match Tools cfg !! name with
   | None => True
   | Some tc => Methods tc = []
   end) /\
  (fst (installTool cfg name st) = Ok (Some (NoMethods name)) ->
   snd (installTool cfg name st) = st).
Proof.
  split; [apply installTool_ok|].
  destruct (Tools cfg !! name) as [tc|] eqn:Ht.
  - destruct (Methods tc) as [|m ms] eqn:Hm.
    + unfold installTool. rewrite Ht, Hm. simpl. tauto.
    + assert (Methods tc <> []) as Hne by congruence.
      destruct (installTool_plan_outcome cfg name tc st Ht Hne)
        as (failures & final & _ & _ & _ & Ho).
      rewrite Ho.
      assert (Ok (errorOf name final) <> Ok (Some (NoMethods name))) as Hd.
      { destruct final as [[]|]; discriminate. }
      split; [split; [intros H; contradiction|discriminate]|].
      intros H. contradiction.
  - unfold installTool. rewrite Ht. simpl. tauto.
Qed.

End DetectionFacts.

Section RunFacts.
Context {os_ : OS}.
Implicit Types (cfg : InstallerConfig) (st : State os_) (tc : ToolConfig).

Lemma runTools_count cfg names installed st :
  match fst (runTools cfg names installed st) with
  | Ok n => installed <= n <= installed + List.length names
  | Panic => True
  end.
Proof.
  revert installed st. induction names as [|name names IH]; intros installed st.
  - simpl. lia.
  - simpl. unfold bind.
    destruct (checkTool cfg name st) as [[present|] st1]; [|exact I].
    destruct present.
    + specialize (IH (S installed) st1).
      destruct (fst (runTools cfg names (S installed) st1)); [lia|exact I].
    + destruct (installTool cfg name st1) as [[err|] st2]; [|exact I].
      destruct err.
      * specialize (IH installed st2).
        destruct (fst (runTools cfg names installed st2)); [lia|exact I].
      * specialize (IH (S installed) st2).
        destruct (fst (runTools cfg names (S installed) st2)); [lia|exact I].
Qed.

(** X5: when [Run] returns, the number of tools it reports as installed is
    at most the number of tools listed, and the error it returns is nil:
    no failure of a tool makes [Run] fail. *)
Theorem Run_summary cfg st :
  match fst (Run cfg st) with
  | Ok (installed, err) =>
      installed <= List.length (ToolList cfg) /\ err = None
  | Panic => True
  end.
Proof.
  unfold Run, bind, ret.
  pose proof (runTools_count cfg (ToolList cfg) 0 st) as H.
  destruct (runTools cfg (ToolList cfg) 0 st) as [[n|] st']; simpl in *;
    [|exact I].
  split; [lia|reflexivity].
Qed.

Lemma runTools_all_present cfg names installed st :
  (forall n, In n names ->
     Tools cfg !! n <> None /\ keepsOnPath n /\ LookPath n (world st) = true) ->
  fst (runTools cfg names installed st) = Ok (installed + List.length names) /\
  List.filter isInstall (trace (snd (runTools cfg names installed st)))
    = List.filter isInstall (trace st).
Proof.
  revert installed st. induction names as [|name names IH];
    intros installed st Hall.
  - simpl. split; [f_equal; lia|reflexivity].
  - simpl. unfold bind.
    destruct (Hall name (or_introl eq_refl)) as (He & _ & Hp).
    pose proof (checkTool_panic cfg name st) as Hc.
    pose proof (checkTool_result cfg name st) as Hr.
    pose proof (checkTool_trace isInstall cfg name st (fun _ _ => eq_refl)) as Ht.
    assert (forall n, In n names -> LookPath n (world (snd (checkTool cfg name st))) = true)
      as Hp1.
    { intros n Hn. destruct (Hall n (or_intror Hn)) as (_ & Hk & Hpn).
      apply checkTool_path; assumption. }
    destruct (checkTool cfg name st) as [[present|] st1]; simpl in *.
    + rewrite (Hr present eq_refl), Hp.
      destruct (IH (S installed) st1) as [H1 H2].
      { intros n Hn. destruct (Hall n (or_intror Hn)) as (Hen & Hk & _).
        split; [exact Hen|]. split; [exact Hk|apply Hp1, Hn]. }
      split; [rewrite H1; f_equal; lia|congruence].
    + destruct (proj1 Hc eq_refl) as [_ Hn]. contradiction.
Qed.

(** X6: when every listed tool has an entry, is on the search path and
    stays there, [Run] reports all of them installed, returns no error and
    runs no installation command. *)
Theorem Run_all_present cfg st :
  (forall n, In n (ToolList cfg) ->
     Tools cfg !! n <> None /\ keepsOnPath n /\ LookPath n (world st) = true) ->
  fst (Run cfg st) = Ok (List.length (ToolList cfg), None) /\
  List.filter isInstall (trace (snd (Run cfg st)))
    = List.filter isInstall (trace st).
Proof.
  intros Hall. rewrite Run_state.
  destruct (runTools_all_present cfg (ToolList cfg) 0 st Hall) as [H1 H2].
  split; [|exact H2].
  unfold Run, bind, ret.
  destruct (runTools cfg (ToolList cfg) 0 st) as [[n|] st']; simpl in *;
    congruence.
Qed.

Lemma runTools_no_panic cfg names installed st :
  (forall n, In n names -> Tools cfg !! n = None ->
     forall w, LookPath n w = false) ->
  exists r, fst (runTools cfg names installed st) = Ok r.
Proof.
  revert installed st. induction names as [|name names IH];
    intros installed st Hall; simpl.
  - eexists. reflexivity.
  - unfold bind.
    pose proof (checkTool_panic cfg name st) as Hc.
    assert (forall n, In n names -> Tools cfg !! n = None ->
              forall w, LookPath n w = false) as Hall'
      by (intros n Hn; apply Hall; right; exact Hn).
    destruct (checkTool cfg name st) as [[present|] st1]; simpl in Hc.
    + destruct present; [apply IH, Hall'|].
      destruct (installTool_ok cfg name st1) as [r Hr].
      destruct (installTool cfg name st1) as [[err|] st2]; simpl in Hr;
        [|discriminate].
      destruct err; apply IH, Hall'.
    + destruct (proj1 Hc eq_refl) as [Hp Hn].
      rewrite (Hall name (or_introl eq_refl) Hn) in Hp. discriminate.
Qed.

(** X7: once the configuration is loaded the process exits with code 0,
    whatever the installations do, provided no listed tool that lacks an
    entry in [tools] can be found on the search path. *)
Theorem main_exits_0 cfg st :
  (forall n, In n (ToolList cfg) -> Tools cfg !! n = None ->
     forall w, LookPath n w = false) ->
  fst (main (Some cfg) st) = Exit 0.
Proof.
  intros Hall. unfold main, Run, bind, ret.
  destruct (runTools_no_panic cfg (ToolList cfg) 0 st Hall) as [r Hr].
  destruct (runTools cfg (ToolList cfg) 0 st) as [[n|] st']; simpl in Hr;
    [reflexivity|discriminate].
Qed.

End RunFacts.

(** ** Expansion of the command templates *)

Section ExpandFacts.
Import strings os.

Lemma HasPrefix_app_l s a b :
  HasPrefix s (a ++ b) = true -> HasPrefix s a = true.
Proof.
  revert s. induction a as [|c a IH]; intros s H; [destruct s; reflexivity|].
  change (String c a ++ b) with (String c (a ++ b)) in H.
  destruct s as [|c' s]; [discriminate|]. simpl in *.
  apply andb_true_iff in H as [Hc H]. rewrite Hc. apply IH, H.
Qed.

Lemma Contains_cons c s x :
  Contains (String c s) x = HasPrefix (String c s) x || Contains s x.
Proof. reflexivity. Qed.

Lemma Contains_app_l_true s a b :
  Contains s (a ++ b) = true -> Contains s a = true.
Proof.
  induction s as [|c s IH]; cbn [Contains]; intros H;
    apply orb_true_iff in H as [H|H]; try discriminate.
  - apply HasPrefix_app_l in H. rewrite H. reflexivity.
  - apply HasPrefix_app_l in H. rewrite H. reflexivity.
  - rewrite (IH H). apply orb_true_r.
Qed.

Lemma Contains_app_l s a b :
  Contains s a = false -> Contains s (a ++ b) = false.
Proof.
  intros H. destruct (Contains s (a ++ b)) eqn:E; [|reflexivity].
  apply Contains_app_l_true in E. congruence.
Qed.

Lemma replaceFrom_absent s old new :
  Contains s old = false -> replaceFrom s old new 0 = s.
Proof.
  induction s as [|c s IH]; intros H; [reflexivity|].
  cbn [Contains] in H. apply orb_false_iff in H as [H1 H2].
  cbn [replaceFrom]. rewrite H1, (IH H2). reflexivity.
Qed.

(** A text without the two bytes [${] is left alone by the replacement of
    the version placeholder. *)
Lemma ReplaceAll_version_absent s v :
  Contains s "${" = false -> ReplaceAll s "${version}" v = s.
Proof.
  intros H. unfold ReplaceAll. apply replaceFrom_absent.
  apply (Contains_app_l s "${" "version}"), H.
Qed.

Lemma Contains_no_dollar s : hasByte "$" s = false -> Contains s "${" = false.
Proof.
  induction s as [|c s IH]; intros H; [reflexivity|].
  simpl in H. apply orb_false_iff in H as [Hc Hs].
  simpl. rewrite Hc, (IH Hs). reflexivity.
Qed.

Lemma Contains_app_no_dollar a b :
  hasByte "$" a = false -> Contains b "${" = false ->
  Contains (a ++ b) "${" = false.
Proof.
  intros Ha Hb. induction a as [|c a IH]; [exact Hb|].
  simpl in Ha. apply orb_false_iff in Ha as [Hc Ha].
  change (String c a ++ b) with (String c (a ++ b)).
  simpl. rewrite Hc, (IH Ha). reflexivity.
Qed.

Lemma expandFrom_no_dollar mapping s :
  hasByte "$" s = false -> expandFrom mapping s 0 = s.
Proof.
  induction s as [|c s IH]; intros H; [reflexivity|].
  simpl in H. apply orb_false_iff in H as [Hc Hs].
  simpl. rewrite Hc, (IH Hs). reflexivity.
Qed.

(** When [getShellName] finds no name and takes no byte, the text starts
    with neither a brace nor a dollar sign. *)
Lemma getShellName_nothing c s :
  getShellName (String c s) = ("", 0) ->
  Ascii.eqb c "{" = false /\ Ascii.eqb c "$" = false.
Proof.
  unfold getShellName.
  destruct (Ascii.eqb c "{") eqn:Eb.
  - destruct s as [|c1 [|c2 s2]].
    + simpl. discriminate.
    + destruct (untilBrace (String c1 "")) as [[|n0 n]|]; simpl; discriminate.
    + destruct (isShellSpecialVar c1 && Ascii.eqb c2 "}"); [discriminate|].
      destruct (untilBrace (String c1 (String c2 s2))) as [[|n0 n]|]; simpl;
        discriminate.
  - destruct (isShellSpecialVar c) eqn:Es; [discriminate|].
    intros _. split; [reflexivity|].
    destruct (Ascii.eqb c "$") eqn:Ed; [|reflexivity].
    apply Ascii.eqb_eq in Ed. subst c. discriminate.
Qed.

(** What [os.Expand] returns never holds the two bytes [${] when no value
    of the mapping holds a dollar sign: a dollar sign that stays is followed
    by a byte other than a brace, or ends the text. *)
Lemma expandFrom_no_placeholder mapping :
  (forall n, hasByte "$" (mapping n) = false) ->
  forall s skip, Contains (expandFrom mapping s skip) "${" = false.
Proof.
  intros Hm s. induction s as [|c s IH]; intros skip; [reflexivity|].
  cbn [expandFrom]. destruct skip as [|k]; [|apply IH].
  destruct (Ascii.eqb c "$") eqn:Ec; cbn [andb].
  - destruct s as [|c' s']; cbn [nonempty].
    + apply Ascii.eqb_eq in Ec. subst c. reflexivity.
    + destruct (getShellName (String c' s')) as [name w] eqn:E.
      destruct name as [|n0 n].
      * destruct w as [|w].
        -- apply getShellName_nothing in E as [Hb Hd].
           specialize (IH 0). cbn [expandFrom] in IH |- *.
           rewrite Hd in IH |- *. cbn [andb] in IH |- *.
           change (Contains (String "$" (String c' (expandFrom mapping s' 0))) "${"
                   = false).
           rewrite Contains_cons, IH. simpl. rewrite Hb. reflexivity.
        -- apply IH.
      * apply Contains_app_no_dollar; [apply Hm|apply IH].
  - cbn [Contains HasPrefix]. rewrite Ec, IH. reflexivity.
Qed.

End ExpandFacts.

Section ExpandCommandFacts.
Context {os_ : OS}.

(** X8: a command line without a dollar sign is run as it is written:
    neither the environment nor the declared version changes it. *)
Theorem expandCommand_no_dollar (tc : ToolConfig) (command : string) :
  hasByte "$" command = false ->
  expandCommand tc command = command.
Proof.
  intros H. unfold expandCommand, os.Expand.
  rewrite (expandFrom_no_dollar _ _ H).
  destruct (nonempty (Version tc)); [|reflexivity].
  apply ReplaceAll_version_absent, Contains_no_dollar, H.
Qed.

(** X9: when no variable of the environment has a dollar sign in its
    value, the declared version is never put into a command line: after
    [os.Expand] there is no [${version}] left to replace, so what is run is
    the template with its environment variables expanded and nothing
    else. *)
Theorem expandCommand_version_never_substituted (tc : ToolConfig)
    (command : string) :
  (forall n, hasByte "$" (Getenv n) = false) ->
  expandCommand tc command = os.Expand command Getenv.
Proof.
  intros H. unfold expandCommand.
  destruct (nonempty (Version tc)); [|reflexivity].
  apply ReplaceAll_version_absent. unfold os.Expand.
  apply expandFrom_no_placeholder, H.
Qed.

End ExpandCommandFacts.

(** * Further properties of the version extractor *)

(** ** Strings *)

Lemma append_cons c (a b : string) : String c a ++ b = String c (a ++ b).
Proof. reflexivity. Qed.

Lemma append_nil_l (s : string) : "" ++ s = s.
Proof. reflexivity. Qed.

Lemma append_nil_r (s : string) : s ++ "" = s.
Proof.
  induction s as [|c s IH]; [reflexivity|]. rewrite append_cons, IH. reflexivity.
Qed.

Lemma append_assoc (a b c : string) : (a ++ b) ++ c = a ++ (b ++ c).
Proof.
  induction a as [|x a IH]; [reflexivity|].
  rewrite !append_cons, IH. reflexivity.
Qed.

Lemma append_length (a b : string) :
  String.length (a ++ b) = String.length a + String.length b.
Proof.
  induction a as [|x a IH]; [reflexivity|].
  rewrite append_cons. cbn [String.length]. rewrite IH. reflexivity.
Qed.

Lemma HasPrefix_nil s : strings.HasPrefix s "" = true.
Proof. destruct s; reflexivity. Qed.

Lemma HasPrefix_split s e :
  strings.HasPrefix s e = true -> s = e ++ drop_bytes (String.length e) s.
Proof.
  revert s. induction e as [|p e IH]; intros s H.
  - destruct s; reflexivity.
  - destruct s as [|c s]; [discriminate|].
    cbn [strings.HasPrefix] in H. apply andb_true_iff in H as [Hc H].
    apply Ascii.eqb_eq in Hc. subst p.
    rewrite append_cons. cbn [String.length drop_bytes].
    rewrite <- (IH s H). reflexivity.
Qed.

Lemma HasPrefix_append e t : strings.HasPrefix (e ++ t) e = true.
Proof.
  induction e as [|p e IH]; [apply HasPrefix_nil|].
  rewrite append_cons. cbn [strings.HasPrefix].
  rewrite Ascii.eqb_refl, IH. reflexivity.
Qed.

Lemma substring_middle (a t b : string) :
  substring (String.length a) (String.length t) (a ++ t ++ b) = t.
Proof.
  induction a as [|x a IH].
  - rewrite append_nil_l. cbn [String.length]. induction t as [|y t IHt].
    + destruct b; reflexivity.
    + rewrite append_cons. cbn [String.length substring]. rewrite IHt.
      reflexivity.
  - rewrite append_cons. cbn [String.length substring]. exact IH.
Qed.

Lemma slice_middle (a t b : string) :
  regexp.slice (a ++ t ++ b) (String.length a) (String.length a + String.length t) = t.
Proof.
  unfold regexp.slice.
  replace (String.length a + String.length t - String.length a)
    with (String.length t) by lia.
  apply substring_middle.
Qed.

(** ** Soundness of the matcher *)

Section MatcherSoundness.
Import regexp.

Lemma plusLoop_sound set p k : sound p k -> sound (InstPlus set :: p) (plusLoop set k).
Proof.
  intros Hk s. induction s as [|c s IH]; intros pos caps e caps' H.
  - discriminate.
  - cbn [plusLoop] in H. destruct (byte_in c set) eqn:Hc; [|discriminate].
    destruct (plusLoop set k s (S pos) caps) as [[e1 c1]|] eqn:E.
    + injection H as -> ->.
      destruct (IH _ _ _ _ E) as (t & rest & -> & -> & Hm).
      inversion Hm as [| |set' u p' t' pos' caps0 caps1 Hu Ha Hm'|]; subst.
      exists (String c u ++ t'), rest.
      split; [rewrite !append_cons, append_assoc; reflexivity|].
      split; [rewrite !append_cons, !append_length; cbn [String.length];
              rewrite append_length; lia|].
      apply Matches_plus; [discriminate|cbn [allBytes]; rewrite Hc; exact Ha|].
      replace (pos + String.length (String c u)) with (S pos + String.length u)
        by (cbn [String.length]; lia).
      exact Hm'.
    + destruct (Hk _ _ _ _ _ H) as (t & rest & -> & -> & Hm).
      exists (String c "" ++ t), rest.
      split; [reflexivity|].
      split; [rewrite append_length; cbn [String.length]; lia|].
      apply Matches_plus; [discriminate|cbn [allBytes]; rewrite Hc; reflexivity|].
      replace (pos + String.length (String c "")) with (S pos)
        by (cbn [String.length]; lia).
      exact Hm.
Qed.

(** Soundness of [exec]: the bytes it takes are a match of the program. *)
Lemma exec_sound p : sound p (exec p).
Proof.
  induction p as [|i p IH].
  - intros s pos caps e caps' [= <- <-].
    exists "", s. split; [reflexivity|]. split; [cbn; lia|constructor].
  - destruct i as [alts|set|slot]; cbn [exec].
    + intros s pos caps e caps' H.
      destruct (find (strings.HasPrefix s) alts) as [a|] eqn:F; [|discriminate].
      apply find_some in F as [Hin Hp].
      destruct (IH _ _ _ _ _ H) as (t & rest & Hs & -> & Hm).
      exists (a ++ t), rest.
      split; [rewrite append_assoc, <- Hs; apply HasPrefix_split, Hp|].
      split; [rewrite append_length; lia|].
      apply Matches_rune; assumption.
    + apply plusLoop_sound, IH.
    + intros s pos caps e caps' H.
      destruct (IH _ _ _ _ _ H) as (t & rest & Hs & -> & Hm).
      exists t, rest. split; [exact Hs|]. split; [reflexivity|].
      apply Matches_capture, Hm.
Qed.

(** Soundness of [search]: the match lies in the input where the offsets
    say. *)
Lemma search_sound p s pos b e caps :
  search p s pos = Some (b, e, caps) ->
  exists pre t rest,
    s = pre ++ t ++ rest /\ b = pos + String.length pre /\
    e = b + String.length t /\ Matches p t b [] caps.
Proof.
  revert pos. induction s as [|c s IH]; intros pos H; cbn [search] in H.
  - destruct (exec p "" pos []) as [[e1 c1]|] eqn:E; [|discriminate].
    injection H as <- <- <-.
    destruct (exec_sound _ _ _ _ _ _ E) as (t & rest & Hs & -> & Hm).
    exists "", t, rest. cbn [String.length]. rewrite append_nil_l.
    split; [exact Hs|]. split; [lia|]. split; [reflexivity|].
    replace (pos + 0) with pos by lia. exact Hm.
  - destruct (exec p (String c s) pos []) as [[e1 c1]|] eqn:E.
    + injection H as <- <- <-.
      destruct (exec_sound _ _ _ _ _ _ E) as (t & rest & Hs & -> & Hm).
      exists "", t, rest. cbn [String.length]. rewrite append_nil_l.
      split; [exact Hs|]. split; [lia|]. split; [reflexivity|].
      replace (pos + 0) with pos by lia. exact Hm.
    + destruct (IH _ H) as (pre & t & rest & -> & -> & -> & Hm).
      exists (String c pre), t, rest. cbn [String.length].
      split; [reflexivity|]. split; [lia|]. split; [reflexivity|].
      replace (pos + S (String.length pre)) with (S pos + String.length pre) by lia.
      exact Hm.
Qed.

(** The match [FindString] and [FindStringSubmatch] start from. *)
Lemma search_slice re s b e caps :
  search (prog re) s 0 = Some (b, e, caps) ->
  exists pre t rest,
    s = pre ++ t ++ rest /\ b = String.length pre /\
    slice s b e = t /\ Matches (prog re) t b [] caps.
Proof.
  intros H. destruct (search_sound _ _ _ _ _ _ H)
    as (pre & t & rest & -> & Hb & -> & Hm).
  cbn in Hb. subst b.
  exists pre, t, rest. split; [reflexivity|]. split; [reflexivity|].
  split; [apply slice_middle|exact Hm].
Qed.

Lemma Matches_app_inv p q t pos caps caps2 :
  Matches (p ++ q) t pos caps caps2 ->
  exists t1 t2 caps1,
    t = t1 ++ t2 /\ Matches p t1 pos caps caps1 /\
    Matches q t2 (pos + String.length t1) caps1 caps2.
Proof.
  revert t pos caps. induction p as [|i p IH]; intros t pos caps H.
  - exists "", t, caps. split; [reflexivity|]. split; [constructor|].
    cbn [String.length]. replace (pos + 0) with pos by lia. exact H.
  - rewrite <- app_comm_cons in H.
    inversion H as [|alts a p' t' pos' c0 c1 Hin Hm
                    |set u p' t' pos' c0 c1 Hu Ha Hm
                    |slot p' t' pos' c0 c1 Hm]; subst.
    + destruct (IH _ _ _ Hm) as (t1 & t2 & caps1 & -> & H1 & H2).
      exists (a ++ t1), t2, caps1.
      split; [rewrite append_assoc; reflexivity|].
      split; [apply Matches_rune; assumption|].
      rewrite append_length, Nat.add_assoc. exact H2.
    + destruct (IH _ _ _ Hm) as (t1 & t2 & caps1 & -> & H1 & H2).
      exists (u ++ t1), t2, caps1.
      split; [rewrite append_assoc; reflexivity|].
      split; [apply Matches_plus; assumption|].
      rewrite append_length, Nat.add_assoc. exact H2.
    + destruct (IH _ _ _ Hm) as (t1 & t2 & caps1 & -> & H1 & H2).
      exists t1, t2, caps1.
      split; [reflexivity|]. split; [apply Matches_capture; assumption|exact H2].
Qed.

End MatcherSoundness.

(** ** The shape of what the patterns return *)

Section Shapes.
Import regexp.

Ltac invert_matches :=
  repeat match goal with
    | H : Matches (_ :: _) _ _ _ _ |- _ => inversion H; subst; clear H
    | H : Matches [] _ _ _ _ |- _ => inversion H; subst; clear H
    end.

Ltac in_cases H :=
  repeat (destruct H as [<-|H]); try destruct H.

Lemma Matches_no_capture p t pos caps caps' :
  Matches p t pos caps caps' ->
  (forall slot, ~ In (InstCapture slot) p) ->
  caps' = caps.
Proof.
  induction 1 as [| alts a p t pos caps caps' Hin Hm IH
                  | set u p t pos caps caps' Hu Ha Hm IH
                  | slot p t pos caps caps' Hm IH]; intros Hn.
  - reflexivity.
  - apply IH. intros slot Hs. apply (Hn slot). right. exact Hs.
  - apply IH. intros slot Hs. apply (Hn slot). right. exact Hs.
  - exfalso. apply (Hn slot). left. reflexivity.
Qed.

(** What [\d+\.\d+\.\d+] matches is three numbers separated by dots. *)
Lemma Matches_numbers t pos caps caps' :
  Matches (prog (MustCompile "\d+\.\d+\.\d+")) t pos caps caps' ->
  threeNumbers t /\ caps' = caps.
Proof.
  intros H. set (P := prog _) in H. vm_compute in P. subst P.
  invert_matches.
  repeat match goal with H : In _ _ |- _ => in_cases H end.
  split; [|reflexivity].
  exists u, u0, u1. rewrite append_nil_r.
  repeat split; assumption.
Qed.

Lemma allBytes_hasByte f s c :
  allBytes f s = true -> f c = false -> hasByte c s = false.
Proof.
  intros Hs Hc. induction s as [|x s IH]; [reflexivity|].
  cbn [allBytes] in Hs. apply andb_true_iff in Hs as [Hx Hs].
  cbn [hasByte]. rewrite (IH Hs), orb_false_r.
  destruct (Ascii.eqb x c) eqn:E; [|reflexivity].
  apply Ascii.eqb_eq in E. congruence.
Qed.

Lemma hasByte_append c a b : hasByte c (a ++ b) = hasByte c a || hasByte c b.
Proof.
  induction a as [|x a IH]; [reflexivity|].
  rewrite append_cons. cbn [hasByte]. rewrite IH, orb_assoc. reflexivity.
Qed.

(** Three numbers hold digits and dots only. *)
Lemma threeNumbers_hasByte n c :
  threeNumbers n -> isDigit c = false -> Ascii.eqb "." c = false ->
  hasByte c n = false.
Proof.
  intros (a & b & d & [_ Ha] & [_ Hb] & [_ Hd] & ->) Hc Hdot.
  rewrite !hasByte_append.
  rewrite (allBytes_hasByte _ _ _ Ha Hc), (allBytes_hasByte _ _ _ Hb Hc),
    (allBytes_hasByte _ _ _ Hd Hc).
  cbn [hasByte]. rewrite Hdot. reflexivity.
Qed.

Lemma threeNumbers_nonempty n : threeNumbers n -> nonempty n = true.
Proof.
  intros (a & b & d & [Ha _] & _ & _ & ->).
  destruct a as [|x a]; [congruence|reflexivity].
Qed.

Lemma threeNumbers_head n :
  threeNumbers n -> exists x r, n = String x r /\ isDigit x = true.
Proof.
  intros (a & b & d & [Ha Ha'] & _ & _ & ->).
  destruct a as [|x a]; [congruence|].
  cbn [allBytes] in Ha'. apply andb_true_iff in Ha' as [Hx _].
  exists x, (a ++ "." ++ b ++ "." ++ d). split; [reflexivity|exact Hx].
Qed.

Lemma hasByte_Contains c x s :
  hasByte c s = false -> strings.Contains s (String c x) = false.
Proof.
  induction s as [|y s IH]; intros H; [reflexivity|].
  cbn [hasByte] in H. apply orb_false_iff in H as [Hy Hs].
  rewrite Contains_cons, (IH Hs). cbn [strings.HasPrefix]. rewrite Hy.
  reflexivity.
Qed.

(** The clean-up of [tryPattern] leaves a text of digits, dots and
    possibly a leading [v] as it is. *)
Lemma cleanup_identity m :
  strings.Contains m "amass - " = false ->
  strings.HasPrefix m "go" = false ->
  (if strings.Contains m "amass - "
   then Some (strings.TrimPrefix (strings.TrimPrefix m "amass - ") "v")
   else if strings.HasPrefix m "go" then Some (strings.TrimPrefix m "go")
        else Some m) = Some m.
Proof. intros -> ->. reflexivity. Qed.

Lemma tryPattern_numbers_shape version v :
  tryPattern "\d+\.\d+\.\d+" version = Some v -> threeNumbers v.
Proof.
  unfold tryPattern.
  change (strings.Contains "\d+\.\d+\.\d+" "(") with false. cbv iota.
  unfold FindString.
  destruct (search _ version 0) as [[[b e] caps]|] eqn:E; [|discriminate].
  destruct (search_slice _ _ _ _ _ E) as (pre & t & rest & _ & _ & -> & Hm).
  apply Matches_numbers in Hm as [Hn _].
  rewrite (threeNumbers_nonempty _ Hn).
  rewrite cleanup_identity; [intros [= <-]; exact Hn| |].
  - apply hasByte_Contains, threeNumbers_hasByte; [exact Hn| |]; reflexivity.
  - destruct (threeNumbers_head _ Hn) as (x & r & -> & Hx).
    cbn [strings.HasPrefix].
    destruct (Ascii.eqb x "g") eqn:Eg; [|reflexivity].
    apply Ascii.eqb_eq in Eg. subst x. discriminate.
Qed.

Lemma tryPattern_v_shape version v :
  tryPattern "v\d+\.\d+\.\d+" version = Some v ->
  exists n, threeNumbers n /\ v = "v" ++ n.
Proof.
  unfold tryPattern.
  change (strings.Contains "v\d+\.\d+\.\d+" "(") with false. cbv iota.
  unfold FindString.
  destruct (search _ version 0) as [[[b e] caps]|] eqn:E; [|discriminate].
  destruct (search_slice _ _ _ _ _ E) as (pre & t & rest & _ & _ & -> & Hm).
  change (prog (MustCompile "v\d+\.\d+\.\d+"))
    with (InstRune ["v"] :: prog (MustCompile "\d+\.\d+\.\d+")) in Hm.
  inversion Hm as [|alts a p n pos c0 c1 Hin Hm'| |]; subst. clear Hm.
  in_cases Hin.
  apply Matches_numbers in Hm' as [Hn _].
  change (nonempty ("v" ++ n)) with true. cbv iota.
  rewrite cleanup_identity; [intros [= <-]; exists n; split; [exact Hn|reflexivity]| |].
  - change ("v" ++ n) with (String "v" n). rewrite Contains_cons.
    rewrite (hasByte_Contains "a" "mass - " n);
      [reflexivity|apply threeNumbers_hasByte; [exact Hn| |]; reflexivity].
  - reflexivity.
Qed.

Lemma group_1 s o c : group s [(3, c); (2, o)] 1 = slice s o c.
Proof. reflexivity. Qed.

Lemma tryPattern_version_shape version v :
  tryPattern "(?i)version\s+(v\d+\.\d+\.\d+)" version = Some v ->
  exists n, threeNumbers n /\ (v = "v" ++ n \/ v = "V" ++ n).
Proof.
  unfold tryPattern.
  change (strings.Contains "(?i)version\s+(v\d+\.\d+\.\d+)" "(") with true.
  cbv iota. unfold FindStringSubmatch.
  destruct (search _ version 0) as [[[b e] caps]|] eqn:E; [|discriminate].
  destruct (search_slice _ _ _ _ _ E) as (pre & t & rest & -> & -> & _ & Hm).
  change (NumSubexp (MustCompile "(?i)version\s+(v\d+\.\d+\.\d+)")) with 1.
  cbn [seq map]. intros [= <-].
  set (A := firstn 8 (prog (MustCompile "(?i)version\s+(v\d+\.\d+\.\d+)"))).
  change (prog (MustCompile "(?i)version\s+(v\d+\.\d+\.\d+)"))
    with (A ++ [InstCapture 2]
            ++ (InstRune ["V"; "v"] :: prog (MustCompile "\d+\.\d+\.\d+"))
            ++ [InstCapture 3])%list in Hm.
  apply Matches_app_inv in Hm as (tA & t2 & capsA & -> & HA & Hm).
  apply Matches_no_capture in HA; [subst capsA|].
  2:{ intros slot Hs. vm_compute in Hs.
      repeat (destruct Hs as [Hs|Hs]; [discriminate|]). destruct Hs. }
  apply Matches_app_inv in Hm as (t0 & t3 & caps0 & -> & H0 & Hm).
  apply Matches_app_inv in Hm as (tG & t4 & capsG & -> & HG & Hm).
  invert_matches.
  repeat match goal with H : In _ ["."] |- _ => in_cases H end.
  clear E A. rewrite !append_nil_r, !append_nil_l. cbn [String.length].
  rewrite !Nat.add_0_r.
  exists (u ++ "." ++ u0 ++ "." ++ u1).
  split; [exists u, u0, u1; repeat split; assumption|].
  remember (u ++ "." ++ u0 ++ "." ++ u1) as n eqn:En.
  assert (group (pre ++ (tA ++ a ++ n) ++ rest)
            [(3, String.length pre + String.length tA + String.length (a ++ n));
             (2, String.length pre + String.length tA)] 1 = a ++ n) as Hg.
  { rewrite group_1, (append_assoc tA), <- (append_assoc pre tA).
    rewrite <- append_length. apply slice_middle. }
  rewrite Hg.
  match goal with H : In a _ |- _ => in_cases H end; [right|left]; reflexivity.
Qed.

End Shapes.

(** ** Trimming and the first line *)

Section TrimFacts.
Import strings.

Lemma rev_bytes_append s acc : rev_bytes s acc = reverse_string s ++ acc.
Proof.
  unfold reverse_string. revert acc.
  induction s as [|c s IH]; intros acc; [reflexivity|].
  cbn [rev_bytes]. rewrite (IH (String c acc)), (IH (String c "")).
  rewrite append_assoc. reflexivity.
Qed.

Lemma reverse_string_cons c s :
  reverse_string (String c s) = reverse_string s ++ String c "".
Proof. unfold reverse_string at 1. cbn [rev_bytes]. apply rev_bytes_append. Qed.

Lemma reverse_string_append a b :
  reverse_string (a ++ b) = reverse_string b ++ reverse_string a.
Proof.
  induction a as [|c a IH].
  - rewrite append_nil_l. symmetry. apply append_nil_r.
  - rewrite append_cons, !reverse_string_cons, IH, append_assoc. reflexivity.
Qed.

Lemma reverse_string_involutive s : reverse_string (reverse_string s) = s.
Proof.
  induction s as [|c s IH]; [reflexivity|].
  rewrite reverse_string_cons, reverse_string_append, IH. reflexivity.
Qed.

Lemma Suffix_split t s : Suffix t s -> exists a, s = a ++ t.
Proof.
  induction 1 as [s|t c s _ [a ->]].
  - exists "". reflexivity.
  - exists (String c a). reflexivity.
Qed.

Lemma trimLeft_Suffix encs s skip : Suffix (trimLeft encs s skip) s.
Proof.
  revert skip. induction s as [|c s IH]; intros skip; cbn [trimLeft].
  - constructor.
  - destruct skip as [|k]; [|constructor; apply IH].
    destruct (prefixWidth encs (String c s)); [constructor|].
    constructor. apply IH.
Qed.

(** What is left after trimming does not start with one of the
    encodings. *)
Lemma trimLeft_stable encs s skip :
  trimLeft encs s skip = "" \/ prefixWidth encs (trimLeft encs s skip) = 0.
Proof.
  revert skip. induction s as [|c s IH]; intros skip; cbn [trimLeft].
  - left. reflexivity.
  - destruct skip as [|k]; [|apply IH].
    destruct (prefixWidth encs (String c s)) eqn:E; [right; exact E|apply IH].
Qed.

(** The trimmed text is a run of bytes of the text, and what comes before
    its end is what is left of the text after the leading white space. *)
Lemma TrimSpace_split s :
  exists b, trimLeft spaceEncodings s 0 = TrimSpace s ++ b.
Proof.
  unfold TrimSpace.
  destruct (Suffix_split _ _
    (trimLeft_Suffix (map reverse_string spaceEncodings)
       (reverse_string (trimLeft spaceEncodings s 0)) 0)) as [a Ha].
  exists (reverse_string a).
  rewrite <- reverse_string_append, <- Ha, reverse_string_involutive.
  reflexivity.
Qed.

Lemma prefixWidth_LF r : prefixWidth spaceEncodings (String (chr 10) r) = 1.
Proof.
  unfold prefixWidth, spaceEncodings. cbn [find bytes strings.HasPrefix].
  change (Ascii.eqb (chr 10) (chr 9)) with false.
  change (Ascii.eqb (chr 10) (chr 10)) with true.
  cbn [andb]. rewrite HasPrefix_nil. reflexivity.
Qed.

(** The trimmed text does not start with a line feed. *)
Lemma TrimSpace_no_leading_LF s r : TrimSpace s <> String (chr 10) r.
Proof.
  intros H. destruct (TrimSpace_split s) as [b Hb]. rewrite H in Hb.
  rewrite append_cons in Hb.
  destruct (trimLeft_stable spaceEncodings s 0) as [E|E]; rewrite Hb in E.
  - discriminate.
  - rewrite prefixWidth_LF in E. discriminate.
Qed.

Lemma splitFrom_head s cur :
  exists rest,
    splitFrom s LF 0 cur = (reverse_string cur ++ untilByte (chr 10) s) :: rest.
Proof.
  revert cur. induction s as [|c s IH]; intros cur.
  - exists []. cbn [splitFrom untilByte]. rewrite append_nil_r. reflexivity.
  - cbn [splitFrom untilByte]. unfold LF at 1. cbn [bytes strings.HasPrefix].
    rewrite HasPrefix_nil, andb_true_r.
    destruct (Ascii.eqb c (chr 10)).
    + eexists. rewrite append_nil_r. reflexivity.
    + destruct (IH (String c cur)) as [rest Hr]. exists rest.
      rewrite Hr, reverse_string_cons, append_assoc. reflexivity.
Qed.

(** [firstLine] is the text before the first line feed. *)
Lemma firstLine_untilByte v : firstLine v = untilByte (chr 10) v.
Proof.
  unfold firstLine, Split, LF at 1. cbn [bytes].
  destruct (splitFrom_head v "") as [rest Hr]. rewrite Hr. reflexivity.
Qed.

Lemma untilByte_no_byte c s : hasByte c (untilByte c s) = false.
Proof.
  induction s as [|x s IH]; [reflexivity|].
  cbn [untilByte]. destruct (Ascii.eqb x c) eqn:E; [reflexivity|].
  cbn [hasByte]. rewrite E, IH. reflexivity.
Qed.

Lemma untilByte_prefix c s : exists b, s = untilByte c s ++ b.
Proof.
  induction s as [|x s [b IH]]; [exists ""; reflexivity|].
  cbn [untilByte]. destruct (Ascii.eqb x c).
  - exists (String x s). reflexivity.
  - exists b. rewrite append_cons, <- IH. reflexivity.
Qed.

Lemma untilByte_empty c s :
  untilByte c s = "" -> s = "" \/ exists r, s = String c r.
Proof.
  destruct s as [|x s]; [left; reflexivity|].
  cbn [untilByte]. destruct (Ascii.eqb x c) eqn:E; [|discriminate].
  intros _. right. apply Ascii.eqb_eq in E. subst x. exists s. reflexivity.
Qed.

End TrimFacts.

(** ** What [extractVersion] returns *)

Section ExtractVersionResults.
Import regexp.

Lemma extractVersion_by_pattern output :
  match decidingPattern output with
  | Some 0 =>
      exists n, threeNumbers n /\
        (extractVersion output = "v" ++ n \/ extractVersion output = "V" ++ n)
  | Some 2 => exists n, threeNumbers n /\ extractVersion output = "v" ++ n
  | Some 3 => threeNumbers (extractVersion output)
  | Some _ => False
  | None => extractVersion output = firstLine (strings.TrimSpace output)
  end.
Proof.
  unfold decidingPattern, extractVersion, extractVersionWith.
  rewrite tryPatterns_unfold.
  destruct (tryPattern "(?i)version\s+(v\d+\.\d+\.\d+)" _) as [v|] eqn:E1.
  { cbn [option_map fst]. apply tryPattern_version_shape in E1. exact E1. }
  destruct (tryPattern "v\d+\.\d+\.\d+" _) as [v|] eqn:E3.
  { cbn [option_map fst]. apply tryPattern_v_shape in E3. exact E3. }
  destruct (tryPattern "\d+\.\d+\.\d+" _) as [v|] eqn:E4.
  { cbn [option_map fst]. apply tryPattern_numbers_shape in E4. exact E4. }
  reflexivity.
Qed.

(** X10: when a pattern decides, the result is three numbers separated
    by dots, with a leading [v] or [V] from the first pattern, a leading
    [v] from the third and none from the fourth; no other pattern ever
    decides; and when none does, the result is the first line of the
    trimmed output. *)
Theorem extractVersion_shape output :
  match decidingPattern output with
  | Some 0 =>
      exists n, threeNumbers n /\
        (extractVersion output = "v" ++ n \/ extractVersion output = "V" ++ n)
  | Some 2 => exists n, threeNumbers n /\ extractVersion output = "v" ++ n
  | Some 3 => threeNumbers (extractVersion output)
  | Some _ => False
  | None => extractVersion output = firstLine (strings.TrimSpace output)
  end.
Proof. apply extractVersion_by_pattern. Qed.

Lemma extractVersion_cases output :
  (exists n, threeNumbers n /\
     (extractVersion output = n \/ extractVersion output = "v" ++ n \/
      extractVersion output = "V" ++ n)) \/
  (decidingPattern output = None /\
   extractVersion output = untilByte (chr 10) (strings.TrimSpace output)).
Proof.
  pose proof (extractVersion_by_pattern output) as H.
  destruct (decidingPattern output) as [[|[|[|[|i]]]]|].
  - left. destruct H as (n & Hn & H). exists n. tauto.
  - contradiction.
  - left. destruct H as (n & Hn & H). exists n. tauto.
  - left. exists (extractVersion output). tauto.
  - contradiction.
  - right. split; [reflexivity|]. rewrite H. apply firstLine_untilByte.
Qed.

(** X11: [extractVersion] returns the empty string exactly when the
    output is empty or white space only. *)
Theorem extractVersion_empty_iff output :
  extractVersion output = "" <-> strings.TrimSpace output = "".
Proof.
  split.
  - intros He. destruct (extractVersion_cases output) as [(n & Hn & H)|[_ H]].
    + apply threeNumbers_nonempty in Hn.
      destruct H as [H|[H|H]]; rewrite He in H; [subst n|..]; discriminate.
    + rewrite He in H. symmetry in H. apply untilByte_empty in H as [H|[r H]].
      * exact H.
      * exfalso. apply (TrimSpace_no_leading_LF _ _ H).
  - intros Ht. unfold extractVersion, extractVersionWith. rewrite Ht.
    vm_compute. reflexivity.
Qed.

(** X12: what [extractVersion] returns is on one line: it holds no line
    feed. *)
Theorem extractVersion_one_line output :
  hasByte (chr 10) (extractVersion output) = false.
Proof.
  destruct (extractVersion_cases output) as [(n & Hn & H)|[_ H]].
  - assert (hasByte (chr 10) n = false) as Hb
      by (apply threeNumbers_hasByte; [exact Hn| |]; reflexivity).
    destruct H as [H|[H|H]]; rewrite H; [exact Hb|..];
      rewrite hasByte_append, Hb; reflexivity.
  - rewrite H. apply untilByte_no_byte.
Qed.

Lemma Substring_refl s : Substring s s.
Proof. exists "", "". rewrite append_nil_r. reflexivity. Qed.

Lemma Substring_trans t u s : Substring t u -> Substring u s -> Substring t s.
Proof.
  intros (a & b & ->) (c & d & ->).
  exists (c ++ a), (b ++ d). rewrite !append_assoc. reflexivity.
Qed.

Lemma Substring_empty s : Substring "" s.
Proof. exists "", s. reflexivity. Qed.

Lemma substring_prefix m s : exists b, s = substring 0 m s ++ b.
Proof.
  revert m. induction s as [|c s IH]; intros m.
  - exists "". destruct m; reflexivity.
  - destruct m as [|m]; [exists (String c s); reflexivity|].
    cbn [substring]. destruct (IH m) as [b Hb].
    exists b. rewrite append_cons, <- Hb. reflexivity.
Qed.

Lemma substring_Substring n m s : Substring (substring n m s) s.
Proof.
  revert n. induction s as [|c s IH]; intros n.
  - destruct n, m; apply Substring_refl.
  - destruct n as [|n].
    + destruct (substring_prefix m (String c s)) as [b Hb].
      exists "", b. exact Hb.
    + cbn [substring]. destruct (IH n) as (a & b & Hs).
      exists (String c a), b. rewrite append_cons, <- Hs. reflexivity.
Qed.

Lemma Suffix_Substring t s : Suffix t s -> Substring t s.
Proof.
  intros H. apply Suffix_split in H as [a ->].
  exists a, "". rewrite append_nil_r. reflexivity.
Qed.

Lemma TrimPrefix_Substring s prefix : Substring (strings.TrimPrefix s prefix) s.
Proof.
  unfold strings.TrimPrefix.
  destruct (strings.HasPrefix s prefix); [|apply Substring_refl].
  apply Suffix_Substring, Suffix_drop.
Qed.

Lemma group_Substring s caps g : Substring (group s caps g) s.
Proof.
  unfold group, slice.
  destruct (getCap (2 * g) caps); [|apply Substring_empty].
  destruct (getCap (2 * g + 1) caps); [|apply Substring_empty].
  apply substring_Substring.
Qed.

(** Whatever a pattern returns is a run of bytes of the text. *)
Lemma tryPattern_Substring pattern version v :
  tryPattern pattern version = Some v -> Substring v version.
Proof.
  unfold tryPattern. destruct (strings.Contains pattern "(").
  - unfold FindStringSubmatch.
    destruct (search _ version 0) as [[[b e] caps]|]; [|discriminate].
    destruct (seq 1 (NumSubexp (MustCompile pattern))) as [|g gs];
      [discriminate|].
    cbn [map]. intros [= <-]. apply group_Substring.
  - assert (Substring (FindString (MustCompile pattern) version) version) as Hm.
    { unfold FindString, slice.
      destruct (search _ version 0) as [[[b e] caps]|];
        [apply substring_Substring|apply Substring_empty]. }
    destruct (nonempty _); [|discriminate].
    destruct (strings.Contains _ "amass - ").
    { intros [= <-]. eapply Substring_trans; [apply TrimPrefix_Substring|].
      eapply Substring_trans; [apply TrimPrefix_Substring|exact Hm]. }
    destruct (strings.HasPrefix _ "go"); intros [= <-].
    + eapply Substring_trans; [apply TrimPrefix_Substring|exact Hm].
    + exact Hm.
Qed.

Lemma tryPatterns_Substring ps idx version i v :
  tryPatterns ps idx version = Some (i, v) -> Substring v version.
Proof.
  revert idx. induction ps as [|p ps IH]; intros idx; cbn [tryPatterns];
    [discriminate|].
  destruct (tryPattern p version) as [v'|] eqn:E.
  - intros [= <- <-]. eapply tryPattern_Substring, E.
  - apply IH.
Qed.

Lemma TrimSpace_Substring s : Substring (strings.TrimSpace s) s.
Proof.
  destruct (TrimSpace_split s) as [b Hb].
  destruct (Suffix_split _ _ (trimLeft_Suffix strings.spaceEncodings s 0))
    as [a Ha].
  exists a, b. rewrite <- Hb. exact Ha.
Qed.

(** X13: what [extractVersion] returns is a run of consecutive bytes of
    the output, for any list of patterns: the extractor never makes up
    text. *)
Theorem extractVersion_Substring ps output :
  Substring (extractVersionWith ps output) output.
Proof.
  unfold extractVersionWith.
  eapply Substring_trans; [|apply TrimSpace_Substring].
  destruct (tryPatterns ps 0 (strings.TrimSpace output)) as [[i v]|] eqn:E.
  - eapply tryPatterns_Substring, E.
  - rewrite firstLine_untilByte.
    destruct (untilByte_prefix (chr 10) (strings.TrimSpace output)) as [b Hb].
    exists "", b. exact Hb.
Qed.

End ExtractVersionResults.

(** ** Completeness of the matcher on the numbers pattern *)

Section MatcherCompleteness.
Import regexp regexp_facts.

Lemma drop_bytes_append a t : drop_bytes (String.length a) (a ++ t) = t.
Proof.
  induction a as [|c a IH]; [destruct t; reflexivity|].
  rewrite append_cons. cbn [String.length drop_bytes]. exact IH.
Qed.

(** Greedy repetition finds a match whenever some number of bytes of the
    class, at least one, can be followed by a match of the rest. *)
Lemma plusLoop_complete set (k : Cont) u t :
  blind k ->
  u <> "" ->
  allBytes (fun c => byte_in c set) u = true ->
  (exists pos caps, k t pos caps <> None) ->
  forall pos caps, plusLoop set k (u ++ t) pos caps <> None.
Proof.
  intros Hk Hu Ha (pos0 & caps0 & Hok).
  induction u as [|c u IH]; [congruence|]. intros pos caps.
  cbn [allBytes] in Ha. apply andb_true_iff in Ha as [Hc Ha].
  rewrite append_cons. cbn [plusLoop]. rewrite Hc.
  destruct (plusLoop set k (u ++ t) (S pos) caps) eqn:E; [discriminate|].
  destruct u as [|c' u].
  - rewrite append_nil_l. intros Hn. apply Hok. eapply Hk, Hn.
  - exfalso. apply (IH ltac:(discriminate) Ha (S pos) caps). exact E.
Qed.

(** A text that the program can take is found by [exec], when every rune
    instruction of the program stands for one encoding only. *)
Lemma exec_complete p t pos caps caps' :
  Matches p t pos caps caps' ->
  Forall (fun i => match i with
                   | InstRune alts => exists a, alts = [a]
                   | _ => True
                   end) p ->
  forall rest pos0 caps0, exec p (t ++ rest) pos0 caps0 <> None.
Proof.
  induction 1 as [| alts a p t pos caps caps' Hin Hm IH
                  | set u p t pos caps caps' Hu Ha Hm IH
                  | slot p t pos caps caps' Hm IH]; intros Hp rest pos0 caps0.
  - discriminate.
  - inversion Hp as [|i p' Hi Hp']; subst. cbn beta iota in Hi.
    destruct Hi as [a0 ->]. destruct Hin as [<-|[]].
    cbn [exec find]. rewrite append_assoc, HasPrefix_append, drop_bytes_append.
    apply IH, Hp'.
  - inversion Hp as [|i p' _ Hp']; subst.
    cbn [exec]. rewrite append_assoc.
    apply plusLoop_complete; [apply exec_blind|exact Hu|exact Ha|].
    exists 0, []. apply IH, Hp'.
  - inversion Hp as [|i p' _ Hp']; subst.
    cbn [exec]. apply IH, Hp'.
Qed.

(** Three numbers separated by dots are a match of [\d+\.\d+\.\d+]. *)
Lemma threeNumbers_Matches n pos caps :
  threeNumbers n ->
  Matches (prog (MustCompile "\d+\.\d+\.\d+")) n pos caps caps.
Proof.
  intros (a & b & c & [Ha Ha'] & [Hb Hb'] & [Hc Hc'] & ->).
  set (P := prog _). vm_compute in P. subst P.
  rewrite <- (append_nil_r c).
  apply Matches_plus; [exact Ha|exact Ha'|].
  apply (Matches_rune ["."] "."); [left; reflexivity|].
  apply Matches_plus; [exact Hb|exact Hb'|].
  apply (Matches_rune ["."] "."); [left; reflexivity|].
  apply Matches_plus; [exact Hc|exact Hc'|].
  constructor.
Qed.

Lemma Suffix_append a t : Suffix t (a ++ t).
Proof.
  induction a as [|c a IH]; [constructor|].
  rewrite append_cons. constructor. exact IH.
Qed.

(** [\d+\.\d+\.\d+] matches somewhere in every text that holds three
    numbers separated by dots. *)
Lemma numbers_found version n :
  threeNumbers n -> Substring n version ->
  ~ failsAll (prog (MustCompile "\d+\.\d+\.\d+")) version.
Proof.
  intros Hn (a & b & ->) Hf.
  specialize (Hf (n ++ b) (Suffix_append a _) 0 []).
  revert Hf. apply (exec_complete _ _ 0 [] []).
  - apply threeNumbers_Matches, Hn.
  - vm_compute. repeat constructor; eexists; reflexivity.
Qed.

(** X14: the first-line fallback of [extractVersion] is taken exactly
    when the trimmed output nowhere holds three numbers separated by
    dots. *)
Theorem extractVersion_fallback_iff output :
  decidingPattern output = None <->
  ~ exists n, threeNumbers n /\ Substring n (strings.TrimSpace output).
Proof.
  unfold decidingPattern. split.
  - intros H (n & Hn & Hs).
    rewrite tryPatterns_unfold in H.
    destruct (tryPattern "(?i)version\s+(v\d+\.\d+\.\d+)" _); [discriminate|].
    destruct (tryPattern "v\d+\.\d+\.\d+" _); [discriminate|].
    destruct (tryPattern "\d+\.\d+\.\d+" _) eqn:E4; [discriminate|].
    apply tryPattern_simple_none in E4; [|reflexivity|vm_compute; lia].
    exact (numbers_found _ _ Hn Hs E4).
  - intros Hno.
    destruct (tryPatterns patterns 0 (strings.TrimSpace output))
      as [[i v]|] eqn:E; [|reflexivity].
    exfalso. apply Hno.
    pose proof (tryPatterns_Substring _ _ _ _ _ E) as Hsub.
    rewrite tryPatterns_unfold in E.
    destruct (tryPattern "(?i)version\s+(v\d+\.\d+\.\d+)" _) as [v1|] eqn:E1.
    { injection E as _ <-.
      apply tryPattern_version_shape in E1 as (n & Hn & Hv).
      exists n. split; [exact Hn|].
      eapply Substring_trans; [|exact Hsub].
      destruct Hv as [-> | ->]; apply Suffix_Substring, (Suffix_append _ n). }
    destruct (tryPattern "v\d+\.\d+\.\d+" _) as [v3|] eqn:E3.
    { injection E as _ <-.
      apply tryPattern_v_shape in E3 as (n & Hn & ->).
      exists n. split; [exact Hn|].
      eapply Substring_trans; [|exact Hsub].
      apply Suffix_Substring, (Suffix_append _ n). }
    destruct (tryPattern "\d+\.\d+\.\d+" _) as [v4|] eqn:E4; [|discriminate].
    injection E as _ <-.
    apply tryPattern_numbers_shape in E4.
    exists v4. split; assumption.
Qed.

End MatcherCompleteness.

(** ** Trimming twice *)

Section TrimTwice.
Import strings.

Lemma HasPrefix_extend s e b : HasPrefix s e = true -> HasPrefix (s ++ b) e = true.
Proof.
  revert s. induction e as [|p e IH]; intros s H; [apply HasPrefix_nil|].
  destruct s as [|c s]; [discriminate|].
  cbn [HasPrefix] in H. apply andb_true_iff in H as [Hc H].
  rewrite append_cons. cbn [HasPrefix]. rewrite Hc, (IH _ H). reflexivity.
Qed.

Lemma prefixWidth_zero encs s :
  forallb nonempty encs = true ->
  prefixWidth encs s = 0 -> find (HasPrefix s) encs = None.
Proof.
  intros Hne. unfold prefixWidth.
  destruct (find (HasPrefix s) encs) as [e|] eqn:F; [|reflexivity].
  apply find_some in F as [Hin _].
  rewrite forallb_forall in Hne. specialize (Hne e Hin).
  destruct e; [discriminate|]. cbn [String.length]. discriminate.
Qed.

Lemma find_none_extend encs s b :
  find (HasPrefix (s ++ b)) encs = None -> find (HasPrefix s) encs = None.
Proof.
  induction encs as [|e encs IH]; [reflexivity|]. cbn [find].
  destruct (HasPrefix (s ++ b) e) eqn:E; [discriminate|].
  destruct (HasPrefix s e) eqn:E'.
  - rewrite (HasPrefix_extend _ _ b E') in E. discriminate.
  - exact IH.
Qed.

Lemma trimLeft_fixed encs s :
  s = "" \/ find (HasPrefix s) encs = None -> trimLeft encs s 0 = s.
Proof.
  intros [->|H]; [reflexivity|].
  destruct s as [|c s]; [reflexivity|].
  cbn [trimLeft]. unfold prefixWidth. rewrite H. reflexivity.
Qed.

Lemma trimLeft_idempotent encs s :
  forallb nonempty encs = true ->
  trimLeft encs (trimLeft encs s 0) 0 = trimLeft encs s 0.
Proof.
  intros Hne. apply trimLeft_fixed.
  destruct (trimLeft_stable encs s 0) as [H|H]; [left; exact H|right].
  apply prefixWidth_zero; assumption.
Qed.

(** [strings.TrimSpace] changes nothing in a text it has trimmed. *)
Lemma TrimSpace_idempotent s : TrimSpace (TrimSpace s) = TrimSpace s.
Proof.
  assert (trimLeft spaceEncodings (TrimSpace s) 0 = TrimSpace s) as HL.
  { apply trimLeft_fixed.
    destruct (TrimSpace_split s) as [b Hb].
    destruct (trimLeft_stable spaceEncodings s 0) as [H|H].
    - left. rewrite H in Hb. destruct (TrimSpace s); [reflexivity|discriminate].
    - right. apply (find_none_extend _ _ b). rewrite <- Hb.
      apply prefixWidth_zero; [reflexivity|exact H]. }
  unfold TrimSpace at 1. rewrite HL. unfold TrimSpace.
  rewrite reverse_string_involutive, trimLeft_idempotent; reflexivity.
Qed.

(** X15: trimming the output before it is handed to [extractVersion]
    makes no difference, whatever the patterns. *)
Theorem extractVersion_of_trimmed ps output :
  extractVersionWith ps (TrimSpace output) = extractVersionWith ps output.
Proof. unfold extractVersionWith. rewrite TrimSpace_idempotent. reflexivity. Qed.

End TrimTwice.

(** ** Tools that are not on the search path or have no methods *)

Section EdgeFacts.
Context {os_ : OS}.
Implicit Types (cfg : InstallerConfig) (st : State os_).

(** X16: a listed tool that is not on the search path and has no entry
    in [tools], or an entry without methods, is passed over: no process is
    run for it, it is not counted as installed, and the loop goes on with
    the next tool. *)
Theorem absent_tool_without_methods_skipped cfg name names installed st :
  LookPath name (world st) = false ->
  match Tools cfg !! name with
  | None => True
  | Some tc => Methods tc = []
  end ->
  runTools cfg (name :: names) installed st = runTools cfg names installed st.
Proof.
  intros Hp Hm. cbn [runTools]. unfold bind at 1. unfold checkTool, bind, lookPath, ret.
  rewrite Hp. cbn [negb fst snd]. unfold installTool.
  destruct (Tools cfg !! name) as [tc|].
  - rewrite Hm. reflexivity.
  - reflexivity.
Qed.

(** X17: when detection returns, its answer is what the search path
    says, whether or not a version could be read; it fails to return only
    by the panic on a tool that is on the search path without an entry. *)
Theorem checkTool_answer cfg name st :
  match fst (checkTool cfg name st) with
  | Ok present => present = LookPath name (world st)
  | Panic => LookPath name (world st) = true /\ Tools cfg !! name = None
  end.
Proof.
  pose proof (checkTool_result cfg name st) as Hr.
  pose proof (checkTool_panic cfg name st) as Hp.
  destruct (fst (checkTool cfg name st)) as [present|].
  - apply Hr. reflexivity.
  - apply Hp. reflexivity.
Qed.

End EdgeFacts.

(** ** The further properties on the scripted operating system *)

Lemma installTool_is_runPlan_witness :
  Tools (alphaConfig retryMethods) !! "alpha" = Some (tool "" retryMethods) /\
  Methods (tool "" retryMethods) <> [] /\
  installTool (alphaConfig retryMethods) "alpha" (start [])
  = runPlan "alpha"
      (planOf (os_ := scriptedOS) (tool "" retryMethods)
         (Methods (tool "" retryMethods)))
      (start []).
Proof.
  assert (Tools (alphaConfig retryMethods) !! "alpha" = Some (tool "" retryMethods))
    as Ht by (vm_compute; reflexivity).
  assert (Methods (tool "" retryMethods) <> []) as Hm by discriminate.
  split; [exact Ht|]. split; [exact Hm|].
  exact (installTool_is_runPlan (os_ := scriptedOS) (alphaConfig retryMethods)
           "alpha" (tool "" retryMethods) (start []) Ht Hm).
Defined.

Lemma installTool_outcome_witness :
  Tools (alphaConfig retryMethods) !! "alpha" = Some (tool "" retryMethods) /\
  Methods (tool "" retryMethods) <> [] /\
  exists failures final,
    forallb retried failures = true /\
    match final with
    | Some r =>
        retried r = false /\
        List.length failures
        < List.length (planOf (os_ := scriptedOS) (tool "" retryMethods)
                         (Methods (tool "" retryMethods)))
    | None =>
        List.length failures
        = List.length (planOf (os_ := scriptedOS) (tool "" retryMethods)
                         (Methods (tool "" retryMethods)))
    end /\
    trace (snd (installTool (alphaConfig retryMethods) "alpha" (start [])))
      = (trace (start []) ++
         planEvents "alpha"
           (planOf (os_ := scriptedOS) (tool "" retryMethods)
              (Methods (tool "" retryMethods)))
           (failures ++ finalResult final))%list /\
    fst (installTool (alphaConfig retryMethods) "alpha" (start []))
    = Ok (errorOf "alpha" final).
Proof.
  assert (Tools (alphaConfig retryMethods) !! "alpha" = Some (tool "" retryMethods))
    as Ht by (vm_compute; reflexivity).
  assert (Methods (tool "" retryMethods) <> []) as Hm by discriminate.
  split; [exact Ht|]. split; [exact Hm|].
  exact (installTool_outcome (os_ := scriptedOS) (alphaConfig retryMethods)
           "alpha" (tool "" retryMethods) (start []) Ht Hm).
Defined.


Lemma twoToolConfig_all_present n :
  In n (ToolList twoToolConfig) ->
  Tools twoToolConfig !! n <> None /\ keepsOnPath (os_ := scriptedOS) n /\
  LookPath n (world (start ["alpha"; "beta"])) = true.
Proof.
  intros [<-|[<-|[]]]; (split; [vm_compute; discriminate|]);
    (split; [apply scriptedOS_keepsOnPath|reflexivity]).
Qed.

Lemma Run_all_present_witness :
  fst (Run twoToolConfig (start ["alpha"; "beta"]))
  = Ok (List.length (ToolList twoToolConfig), None) /\
  List.filter isInstall (trace (snd (Run twoToolConfig (start ["alpha"; "beta"]))))
  = List.filter isInstall (trace (start ["alpha"; "beta"])).
Proof.
  exact (Run_all_present (os_ := scriptedOS) twoToolConfig
           (start ["alpha"; "beta"]) twoToolConfig_all_present).
Defined.

Lemma main_exits_0_witness :
  (forall n, In n (ToolList gitConfig) -> Tools gitConfig !! n = None ->
     forall w, @LookPath bareOS n w = false) /\
  fst (main (os_ := bareOS) (Some gitConfig) (@Build_State bareOS tt []))
  = Exit 0.
Proof.
  assert (forall n, In n (ToolList gitConfig) -> Tools gitConfig !! n = None ->
            forall w, @LookPath bareOS n w = false) as H by reflexivity.
  split; [exact H|].
  exact (main_exits_0 (os_ := bareOS) gitConfig (@Build_State bareOS tt []) H).
Defined.

Lemma expandCommand_no_dollar_witness :
  hasByte "$" "sudo rm -rf /usr/local/go" = false /\
  expandCommand (os_ := scriptedOS) goTool "sudo rm -rf /usr/local/go"
  = "sudo rm -rf /usr/local/go".
Proof.
  split; [reflexivity|].
  apply (expandCommand_no_dollar (os_ := scriptedOS) goTool). reflexivity.
Defined.

Lemma scriptedOS_env_no_dollar n : hasByte "$" (@Getenv scriptedOS n) = false.
Proof. simpl. destruct (String.eqb n "HOME"); reflexivity. Qed.

Lemma expandCommand_version_never_substituted_witness :
  (forall n, hasByte "$" (@Getenv scriptedOS n) = false) /\
  expandCommand (os_ := scriptedOS) goTool
    "wget https://go.dev/dl/go${version}.linux-amd64.tar.gz"
  = os.Expand "wget https://go.dev/dl/go${version}.linux-amd64.tar.gz"
      (@Getenv scriptedOS).
Proof.
  split; [exact scriptedOS_env_no_dollar|].
  exact (expandCommand_version_never_substituted (os_ := scriptedOS) goTool _
           scriptedOS_env_no_dollar).
Defined.

Lemma absent_tool_without_methods_skipped_witness :
  LookPath "git" (world (start ["alpha"])) = false /\
  runTools gitConfig ("git" :: ["alpha"]) 0 (start ["alpha"])
  = runTools gitConfig ["alpha"] 0 (start ["alpha"]).
Proof.
  split; [reflexivity|].
  apply (absent_tool_without_methods_skipped (os_ := scriptedOS) gitConfig "git"
           ["alpha"] 0 (start ["alpha"])); [reflexivity|].
  vm_compute. exact I.
Defined.
